(** * The event service: data access with a REST backend, a relational
      store and a local mirror

    A shallow embedding of [src/services/eventService.js] (class
    [EventService]) and of the part of the schema migration
    [supabase/migrations/20251026072638_create_events_and_ai_content_tables.sql]
    that the service relies on (table [events] and the types of its
    columns).

    Conventions of the embedding.
    - JavaScript values that travel through the service are JSON data
      ([jsval]); [undefined] is not JSON data and only arises as the result
      of reading a property, so it is the [None] of [option jsval].
      Numbers are integers, and an object is a finite map: the order of
      its members is not kept.
    - A string kept in web storage is represented by what [JSON.parse]
      makes of it ([text]): the empty string, a string that is not JSON, or
      the JSON text of a value.  [JSON.stringify] of JSON data followed by
      [JSON.parse] gives the data back.
    - Everything outside the service is part of the [World]: the two web
      storages, the replies the REST endpoint and the store are going to
      give (in the order the requests arrive; when none is left the
      request fails as on a dead network), the rows of table [events],
      the clock and the console.
    - An [async] method is a computation [M A]: it takes the world, and
      returns or throws together with the world it leaves.  One call runs
      without interleaving with another. *)

From stdpp Require Import gmap strings list pretty.
From Stdlib Require Import ZArith Ascii.

Set Warnings "-register-all".

(** ** JavaScript values *)

Inductive jsval : Type :=
  | JNull
  | JBool (b : bool)
  | JNum (n : Z)
  | JStr (s : string)
  | JArr (xs : list jsval)
  | JObj (fs : gmap string jsval).

(** A value or [undefined]. *)
Abbreviation optional := (option jsval).

Inductive exn : Type :=
  | Error (msg : string)        (* new Error(msg) *)
  | TypeError                   (* property of null, method that is not there *)
  | SyntaxError                 (* JSON.parse *)
  | Rejection (reason : jsval). (* what a collaborator rejected or reported *)

Inductive outcome (A : Type) : Type :=
  | Return (a : A)
  | Throw (e : exn).
Arguments Return {A} a.
Arguments Throw {A} e.

Definition obind {A B} (o : outcome A) (k : A → outcome B) : outcome B :=
  match o with
  | Return a => k a
  | Throw e => Throw e
  end.

Declare Scope js_scope.
Delimit Scope js_scope with js.
Notation "'let?' x := o 'in' k" := (obind o (λ x, k))
  (at level 10, x name, o at level 200, k at level 200, only parsing)
  : js_scope.
Local Open Scope js_scope.

(** Truthiness, as [if (v)], [!v] and [v || d] see it. *)
Definition truthy (v : jsval) : bool :=
  match v with
  | JNull => false
  | JBool b => b
  | JNum n => negb (n =? 0)%Z
  | JStr s => negb (String.eqb s "")
  | JArr _ | JObj _ => true
  end.

Definition truthy_opt (o : optional) : bool :=
  match o with Some v => truthy v | None => false end.

(** [o || d] *)
Definition or_else (o : optional) (d : jsval) : jsval :=
  match o with
  | Some v => if truthy v then v else d
  | None => d
  end.

(** [a === b].  Arrays and objects are compared by reference; the left
    operand is always read out of freshly parsed text or a fresh reply, so
    it is never the very object the caller holds. *)
Definition strict_eq (a : optional) (b : jsval) : bool :=
  match a, b with
  | Some JNull, JNull => true
  | Some (JBool x), JBool y => Bool.eqb x y
  | Some (JNum x), JNum y => (x =? y)%Z
  | Some (JStr x), JStr y => String.eqb x y
  | _, _ => false
  end.

(** [v.k] for the property names the service reads ([id], [data] and the
    fields of the creation input); none of them is a built-in property of
    a string, an array, a number or a boolean. *)
Definition get_prop (v : jsval) (k : string) : outcome optional :=
  match v with
  | JNull => Throw TypeError
  | JObj fs => Return (fs !! k)
  | _ => Return None
  end.

(** The own enumerable properties that [{...v}] copies. *)
Definition own_props (v : jsval) : gmap string jsval :=
  match v with
  | JObj fs => fs
  | JArr xs => list_to_map (imap (λ i x, (pretty i, x)) xs)
  | JStr s =>
      list_to_map
        (imap (λ i c, (pretty i, JStr (String c ""))) (String.list_ascii_of_string s))
  | _ => ∅
  end.

Definition own_props_opt (o : optional) : gmap string jsval :=
  match o with Some v => own_props v | None => ∅ end.

(** Methods of [Array.prototype]; calling one on a value that is not an
    array is a [TypeError]. *)
Definition as_array (v : jsval) : outcome (list jsval) :=
  match v with
  | JArr xs => Return xs
  | _ => Throw TypeError
  end.

Fixpoint find (p : jsval → outcome bool) (xs : list jsval) : outcome optional :=
  match xs with
  | [] => Return None
  | x :: xs' =>
      match p x with
      | Throw e => Throw e
      | Return true => Return (Some x)
      | Return false => find p xs'
      end
  end.

(** [None] stands for the index [-1]. *)
Fixpoint findIndex (p : jsval → outcome bool) (xs : list jsval)
  : outcome (option nat) :=
  match xs with
  | [] => Return None
  | x :: xs' =>
      match p x with
      | Throw e => Throw e
      | Return true => Return (Some 0)
      | Return false =>
          match findIndex p xs' with
          | Throw e => Throw e
          | Return i => Return (S <$> i)
          end
      end
  end.

Fixpoint filter (p : jsval → outcome bool) (xs : list jsval)
  : outcome (list jsval) :=
  match xs with
  | [] => Return []
  | x :: xs' =>
      match p x with
      | Throw e => Throw e
      | Return b =>
          match filter p xs' with
          | Throw e => Throw e
          | Return ys => Return (if b then x :: ys else ys)
          end
      end
  end.

(** The two callbacks of the service: [event => event.id === id] and
    [event => event.id !== id]. *)
Definition id_is (id : jsval) (event : jsval) : outcome bool :=
  let? event_id := get_prop event "id" in
  Return (strict_eq event_id id).

Definition id_is_not (id : jsval) (event : jsval) : outcome bool :=
  let? event_id := get_prop event "id" in
  Return (negb (strict_eq event_id id)).

(** ** Web storage and JSON text *)

Inductive text : Type :=
  | Blank            (* the empty string *)
  | Garbled          (* a non-empty string that is not JSON *)
  | Json (v : jsval). (* the JSON text of v *)

Definition JSON_parse (t : text) : outcome jsval :=
  match t with
  | Json v => Return v
  | Blank | Garbled => Throw SyntaxError
  end.

Definition JSON_stringify (v : jsval) : text := Json v.

(** Truthiness of what [getItem] returns: [null] and the empty string are
    falsy. *)
Definition present (t : option text) : bool :=
  match t with
  | None | Some Blank => false
  | Some _ => true
  end.

(** ** The world around the service *)

Inductive route : Type :=
  | Events                (* /events *)
  | EventAt (id : jsval). (* /events/${id} *)

Inductive request : Type :=
  | GET (r : route)
  | PUT (r : route) (body : jsval)
  | DELETE (r : route).

Inductive reply : Type :=
  | Reject (reason : jsval)  (* no answer, a timeout, a status outside 2xx *)
  | Respond (data : jsval).  (* response.data *)

(** A row of table [events] as the store keeps it, column by column and
    in the types of [CREATE TABLE events]; [user_id] apart, which the
    store reads out of the insert (see [uuid_column] below).  A column
    that may be NULL is an [option]; a date, a time of day and a time
    stamp are the texts the store gives them on output. *)
Module events.
Record columns : Type := Columns {
  id : string;                  (* uuid PRIMARY KEY DEFAULT gen_random_uuid() *)
  event_name : string;          (* text NOT NULL DEFAULT '' *)
  event_type : string;          (* text NOT NULL DEFAULT '' *)
  description : option string;  (* text DEFAULT '' *)
  date : option string;         (* date *)
  time : option string;         (* time *)
  location : option string;     (* text DEFAULT '' *)
  city : option string;         (* text DEFAULT '' *)
  venue_type : option string;   (* text DEFAULT '' *)
  audience_size : option Z;     (* integer DEFAULT 0 *)
  duration : option string;     (* text DEFAULT '' *)
  created_at : option string;   (* timestamptz DEFAULT now() *)
  updated_at : option string    (* timestamptz DEFAULT now() *)
}.
End events.

(** What the store has to say about an insert, the reading of [user_id]
    apart: it refuses with an error object (a policy, a reference, a
    constraint, a date or a number it cannot read), or it accepts, and
    these are the columns of the row as persisted. *)
Inductive verdict : Type :=
  | Refuse (error : gmap string jsval)
  | Accept (cols : events.columns).

Record World : Type := mkWorld {
  localStorage : gmap string text;
  sessionStorage : gmap string text;
  useBackend : bool;                (* this.useBackend *)
  rest : list reply;                (* replies of the REST endpoint to come *)
  sent : list request;              (* requests made to it, latest first *)
  supabase : list verdict;          (* verdicts of the store to come *)
  events_table : list jsval;        (* rows of table events *)
  now : string;                     (* new Date().toISOString() *)
  console : list (string * exn)     (* console.error, latest first *)
}.

Definition M (A : Type) : Type := World → outcome A * World.

Definition ret {A} (a : A) : M A := λ w, (Return a, w).
Definition throw {A} (e : exn) : M A := λ w, (Throw e, w).
Definition lift {A} (o : outcome A) : M A := λ w, (o, w).

Definition bind {A B} (c : M A) (k : A → M B) : M B := λ w,
  match c w with
  | (Return a, w') => k a w'
  | (Throw e, w') => (Throw e, w')
  end.

(** [try { c } catch (error) { h error }] *)
Definition try_catch {A} (c : M A) (h : exn → M A) : M A := λ w,
  match c w with
  | (Return a, w') => (Return a, w')
  | (Throw e, w') => h e w'
  end.

Notation "'let!' x := c 'in' k" := (bind c (λ x, k))
  (at level 10, x name, c at level 200, k at level 200, only parsing)
  : js_scope.
Notation "'do!' c 'in' k" := (bind c (λ _, k))
  (at level 10, c at level 200, k at level 200, only parsing) : js_scope.

Definition with_localStorage (f : gmap string text → gmap string text)
  (w : World) : World :=
  mkWorld (f (localStorage w)) (sessionStorage w) (useBackend w) (rest w)
    (sent w) (supabase w) (events_table w) (now w) (console w).

Definition with_useBackend (b : bool) (w : World) : World :=
  mkWorld (localStorage w) (sessionStorage w) b (rest w)
    (sent w) (supabase w) (events_table w) (now w) (console w).

Definition with_rest (q : list reply) (r : request) (w : World) : World :=
  mkWorld (localStorage w) (sessionStorage w) (useBackend w) q
    (r :: sent w) (supabase w) (events_table w) (now w) (console w).

Definition with_store (q : list verdict) (rows : list jsval) (w : World)
  : World :=
  mkWorld (localStorage w) (sessionStorage w) (useBackend w) (rest w)
    (sent w) q rows (now w) (console w).

Definition with_console (l : string * exn) (w : World) : World :=
  mkWorld (localStorage w) (sessionStorage w) (useBackend w) (rest w)
    (sent w) (supabase w) (events_table w) (now w) (l :: console w).

Definition local_getItem (k : string) : M (option text) := λ w,
  (Return (localStorage w !! k), w).

Definition session_getItem (k : string) : M (option text) := λ w,
  (Return (sessionStorage w !! k), w).

Definition local_setItem (k : string) (t : text) : M unit := λ w,
  (Return (), with_localStorage (insert k t) w).

Definition console_error (msg : string) (e : exn) : M unit := λ w,
  (Return (), with_console (msg, e) w).

Definition get_useBackend : M bool := λ w, (Return (useBackend w), w).

Definition set_useBackend (b : bool) : M unit := λ w,
  (Return (), with_useBackend b w).

Definition Date_now_ISO : M jsval := λ w, (Return (JStr (now w)), w).

Definition network_error : jsval := JStr "Network Error".

(** [await axios.get/put/delete(...)]: resolves to the response, of which
    the service reads [data] only, or rejects. *)
Definition axios (r : request) : M jsval := λ w,
  match rest w with
  | [] => (Throw (Rejection network_error), with_rest [] r w)
  | Reject e :: q => (Throw (Rejection e), with_rest q r w)
  | Respond d :: q => (Return d, with_rest q r w)
  end.

(** ** The store: table [events] of the migration *)

(** *** Column type [uuid]

    The input function of the type: sixteen bytes of two hexadecimal
    digits each, in either case; a hyphen may follow a byte of odd index
    other than the last; the whole may stand in braces; nothing may
    follow.  The output function writes the thirty-two digits in lower
    case, grouped 8-4-4-4-12. *)
Definition is_hex (c : ascii) : bool :=
  let n := nat_of_ascii c in
  (48 <=? n) && (n <=? 57) || (97 <=? n) && (n <=? 102)
  || (65 <=? n) && (n <=? 70).

Definition lower_hex (c : ascii) : ascii :=
  let n := nat_of_ascii c in
  if (65 <=? n) && (n <=? 70) then ascii_of_nat (n + 32) else c.

(** [n] bytes from byte index [i] on: the digits read, in lower case, and
    what is left of the text. *)
Fixpoint uuid_bytes (n i : nat) (src : list ascii)
  : option (list ascii * list ascii) :=
  match n with
  | 0 => Some ([], src)
  | S n' =>
      match src with
      | a :: b :: src' =>
          if is_hex a && is_hex b then
            let src'' :=
              match src' with
              | "-"%char :: after =>
                  if Nat.odd i && (i <? 15) then after else src'
              | _ => src'
              end in
            match uuid_bytes n' (S i) src'' with
            | Some (digits, remainder) =>
                Some (lower_hex a :: lower_hex b :: digits, remainder)
            | None => None
            end
          else None
      | _ => None
      end
  end.

Definition uuid_in (s : string) : option (list ascii) :=
  let src := String.list_ascii_of_string s in
  let '(braces, src) :=
    match src with
    | "{"%char :: inner => (true, inner)
    | _ => (false, src)
    end in
  match uuid_bytes 16 0 src with
  | Some (digits, remainder) =>
      match braces, remainder with
      | true, ["}"%char] => Some digits
      | false, [] => Some digits
      | _, _ => None
      end
  | None => None
  end.

Definition uuid_out (digits : list ascii) : string :=
  String.string_of_list_ascii
    (take 8 digits ++ "-"%char :: take 4 (drop 8 digits) ++
     "-"%char :: take 4 (drop 12 digits) ++
     "-"%char :: take 4 (drop 16 digits) ++ "-"%char :: drop 20 digits).

(** The text a [uuid] column gives back for the text [s] it was given,
    if it takes it. *)
Definition uuid_text (s : string) : option string := uuid_out <$> uuid_in s.

(** *** The text of a value in the body of a request

    [JSON.stringify]; a number is written in decimal digits and the
    members of an object in the order of the map. *)
Definition quote : string := String "034"%char "".

Definition hex_digit (n : nat) : ascii :=
  ascii_of_nat (if n <? 10 then 48 + n else 87 + n).

Definition escaped (c : ascii) : string :=
  let n := nat_of_ascii c in
  if n =? 34 then "\" +:+ quote
  else if n =? 92 then "\\"
  else if n =? 8 then "\b"
  else if n =? 9 then "\t"
  else if n =? 10 then "\n"
  else if n =? 12 then "\f"
  else if n =? 13 then "\r"
  else if n <? 32 then
    "\u00" +:+ String (hex_digit (n / 16)) (String (hex_digit (n mod 16)) "")
  else String c "".

Definition quoted (s : string) : string :=
  quote +:+ String.concat "" (escaped <$> String.list_ascii_of_string s)
  +:+ quote.

Fixpoint JSON_text (v : jsval) : string :=
  match v with
  | JNull => "null"
  | JBool b => if b then "true" else "false"
  | JNum n => pretty n
  | JStr s => quoted s
  | JArr xs => "[" +:+ String.concat "," (JSON_text <$> xs) +:+ "]"
  | JObj fs =>
      "{" +:+ String.concat ","
        (map_fold (λ k v members, members ++ [quoted k +:+ ":" +:+ JSON_text v])
           [] fs) +:+ "}"
  end.

(** The error the store reports for a value a [uuid] column cannot read
    (SQLSTATE 22P02). *)
Definition invalid_uuid (input : string) : gmap string jsval :=
  list_to_map
    [ ("code", JStr "22P02");
      ("details", JNull);
      ("hint", JNull);
      ("message",
       JStr ("invalid input syntax for type uuid: " +:+ quote +:+ input
             +:+ quote)) ].

(** Column [user_id uuid] of an insert: left out or [null] it is NULL
    (the column has no default); a string is read as a [uuid] and kept in
    the form the type writes, or the insert is refused; the text of a
    value of another kind never reads as a [uuid]. *)
Definition uuid_column (v : optional) : gmap string jsval + jsval :=
  match v with
  | None | Some JNull => inr JNull
  | Some (JStr s) =>
      match uuid_text s with
      | Some canonical => inr (JStr canonical)
      | None => inl (invalid_uuid s)
      end
  | Some v => inl (invalid_uuid (JSON_text v))
  end.

(** The JSON object [select()] returns for a row. *)
Definition nullable {A} (f : A → jsval) (o : option A) : jsval :=
  from_option f JNull o.

Definition as_json (user_id : jsval) (c : events.columns) : jsval :=
  JObj (list_to_map
    [ ("id", JStr (events.id c));
      ("user_id", user_id);
      ("event_name", JStr (events.event_name c));
      ("event_type", JStr (events.event_type c));
      ("description", nullable JStr (events.description c));
      ("date", nullable JStr (events.date c));
      ("time", nullable JStr (events.time c));
      ("location", nullable JStr (events.location c));
      ("city", nullable JStr (events.city c));
      ("venue_type", nullable JStr (events.venue_type c));
      ("audience_size", nullable JNum (events.audience_size c));
      ("duration", nullable JStr (events.duration c));
      ("created_at", nullable JStr (events.created_at c));
      ("updated_at", nullable JStr (events.updated_at c)) ]).

(** [await supabase.from('events').insert(row).select().single()]: the
    pair [{ data, error }].  The store reads [user_id] first; a row it
    accepts is persisted in the types of its columns and returned as
    persisted.  Policies, references and constraints are checked inside
    the store: they decide the verdict. *)
Definition supabase_insert (row : gmap string jsval) : M (jsval * jsval) :=
  λ w,
  match supabase w with
  | [] =>
      (Return (JNull, JObj {[ "message" := network_error ]}), w)
  | Refuse error :: q =>
      (Return (JNull, JObj error), with_store q (events_table w) w)
  | Accept cols :: q =>
      match uuid_column (row !! "user_id") with
      | inl error =>
          (Return (JNull, JObj error), with_store q (events_table w) w)
      | inr user_id =>
          let persisted := as_json user_id cols in
          (Return (persisted, JNull),
           with_store q (events_table w ++ [persisted]) w)
      end
  end.

(** ** The service *)

Definition storageKey : string := "smart_event_planner_events".

Definition checkBackendConnection : M bool :=
  try_catch
    (let! response := axios (GET Events) in
     do! set_useBackend true in
     ret true)
    (λ error,
     do! set_useBackend false in
     ret false).

Definition getCurrentUserId : M optional :=
  try_catch
    (let! fromSession := session_getItem "user" in
     let! storedUser := (if present fromSession then ret fromSession
                         else local_getItem "user") in
     if present storedUser then
       let! user := lift (JSON_parse (default Blank storedUser)) in
       lift (get_prop user "id")
     else ret (Some JNull))
    (λ error,
     do! console_error "Error getting current user:" error in
     ret (Some JNull)).

(** The two lines both branches of [getAllEvents] share:
    [const eventsJson = localStorage.getItem(this.storageKey);
     return eventsJson ? JSON.parse(eventsJson) : [];] *)
Definition parsed_or_empty (eventsJson : option text) : outcome jsval :=
  if present eventsJson then JSON_parse (default Blank eventsJson)
  else Return (JArr []).

Definition read_mirror : M jsval :=
  let! eventsJson := local_getItem storageKey in
  lift (parsed_or_empty eventsJson).

Definition getAllEvents : M jsval :=
  try_catch
    (do! checkBackendConnection in
     let! live := get_useBackend in
     if live then
       let! response_data := axios (GET Events) in
       let! payload := lift (get_prop response_data "data") in
       ret (or_else payload (JArr []))
     else read_mirror)
    (λ error,
     do! console_error "Error loading events:" error in
     read_mirror).

Definition getEventById (id : jsval) : M optional :=
  try_catch
    (do! checkBackendConnection in
     let! live := get_useBackend in
     if live then
       let! response_data := axios (GET (EventAt id)) in
       lift (get_prop response_data "data")
     else
       let! events := getAllEvents in
       let! xs := lift (as_array events) in
       lift (find (id_is id) xs))
    (λ error,
     do! console_error "Error getting event:" error in
     ret (Some JNull)).

(** The object literal passed to [insert]. *)
Definition new_row (userId : jsval) (eventData : jsval)
  : outcome (gmap string jsval) :=
  let? eventName := get_prop eventData "eventName" in
  let? eventType := get_prop eventData "eventType" in
  let? description := get_prop eventData "description" in
  let? date := get_prop eventData "date" in
  let? time := get_prop eventData "time" in
  let? location := get_prop eventData "location" in
  let? city := get_prop eventData "city" in
  let? venueType := get_prop eventData "venueType" in
  let? audienceSize := get_prop eventData "audienceSize" in
  let? duration := get_prop eventData "duration" in
  Return (list_to_map
    [ ("user_id", userId);
      ("event_name", or_else eventName (JStr ""));
      ("event_type", or_else eventType (JStr ""));
      ("description", or_else description (JStr ""));
      ("date", or_else date JNull);
      ("time", or_else time JNull);
      ("location", or_else location (JStr ""));
      ("city", or_else city (JStr ""));
      ("venue_type", or_else venueType (JStr ""));
      ("audience_size", or_else audienceSize (JNum 0));
      ("duration", or_else duration (JStr "")) ]).

Definition createEvent (eventData : jsval) : M jsval :=
  try_catch
    (let! userId := getCurrentUserId in
     do! (if truthy_opt userId then ret ()
          else throw (Error "User not authenticated")) in
     let! row := lift (new_row (default JNull userId) eventData) in
     let! result := supabase_insert row in
     let '(newEvent, error) := result in
     do! (if truthy error then
            do! console_error "Error creating event in Supabase:"
                  (Rejection error) in
            throw (Rejection error)
          else ret ()) in
     let! events := getAllEvents in
     let! xs := lift (as_array events) in
     do! local_setItem storageKey (JSON_stringify (JArr (newEvent :: xs))) in
     ret newEvent)
    (λ error,
     do! console_error "Error creating event:" error in
     throw error).

(** [events[index] = v; localStorage.setItem(..., JSON.stringify(events))]:
    an [undefined] element is written as [null]. *)
Definition store_at (xs : list jsval) (index : nat) (v : optional) : M unit :=
  local_setItem storageKey
    (JSON_stringify (JArr (<[index := default JNull v]> xs))).

Definition updateEvent (id : jsval) (updates : jsval) : M optional :=
  try_catch
    (do! checkBackendConnection in
     let! live := get_useBackend in
     if live then
       let! response_data := axios (PUT (EventAt id) updates) in
       let! updatedEvent := lift (get_prop response_data "data") in
       let! events := getAllEvents in
       let! xs := lift (as_array events) in
       let! index := lift (findIndex (id_is id) xs) in
       do! (match index with
            | Some i => store_at xs i updatedEvent
            | None => ret ()
            end) in
       ret updatedEvent
     else
       let! events := getAllEvents in
       let! xs := lift (as_array events) in
       let! index := lift (findIndex (id_is id) xs) in
       match index with
       | None => throw (Error "Event not found")
       | Some i =>
           let! stamp := Date_now_ISO in
           let merged :=
             JObj (<["updatedAt" := stamp]>
                     (own_props updates ∪ own_props_opt (xs !! i))) in
           do! store_at xs i (Some merged) in
           ret (Some merged)
       end)
    (λ error,
     do! console_error "Error updating event:" error in
     throw error).

Definition deleteEvent (id : jsval) : M bool :=
  try_catch
    (do! checkBackendConnection in
     let! live := get_useBackend in
     do! (if live then do! axios (DELETE (EventAt id)) in ret ()
          else ret ()) in
     let! events := getAllEvents in
     let! xs := lift (as_array events) in
     let! filteredEvents := lift (filter (id_is_not id) xs) in
     do! local_setItem storageKey (JSON_stringify (JArr filteredEvents)) in
     ret true)
    (λ error,
     do! console_error "Error deleting event:" error in
     throw error).

(** ** Vocabulary of the statements *)

(** What the mirror reads as: the outcome of the two shared lines of
    [getAllEvents] on the text kept under [storageKey]. *)
Definition cached (w : World) : outcome jsval :=
  parsed_or_empty (localStorage w !! storageKey).

(** The local mirror holds the records [evs], in this order (none when
    nothing, or the empty string, is kept under the key). *)
Definition mirror (w : World) (evs : list jsval) : Prop :=
  cached w = Return (JArr evs).

Definition rejects (r : reply) : bool :=
  match r with
  | Reject _ => true
  | Respond _ => false
  end.

(** The backend is unavailable: whatever is asked of the REST endpoint
    from now on fails. *)
Definition offline (w : World) : Prop := forallb rejects (rest w) = true.

(** The world once the REST endpoint has dealt with request [r]. *)
Definition answered (r : request) (w : World) : World :=
  with_rest (tail (rest w)) r w.

(** The world once the liveness probe has come back with flag [b]. *)
Definition probed (b : bool) (w : World) : World :=
  with_useBackend b (answered (GET Events) w).

(** [null] or [undefined]. *)
Definition absent (v : optional) : Prop := v = None ∨ v = Some JNull.

(** Record [e] carries identifier [id]: the callback
    [event => event.id === id] returns [true] on it. *)
Definition has_id (id : jsval) (e : jsval) : Prop := id_is id e = Return true.

(** Record [e] carries another identifier, or none. *)
Definition lacks_id (id : jsval) (e : jsval) : Prop :=
  id_is id e = Return false.

(** [lacks_id] as a boolean: the entries [keeps id] selects are the
    records that carry another identifier, or none. *)
Definition keeps (id : jsval) (e : jsval) : bool :=
  match id_is id e with
  | Return false => true
  | _ => false
  end.

(** Computation [c] moves every world along relation [R], whether it
    returns or throws. *)
Definition respects (R : relation World) {A} (c : M A) : Prop :=
  ∀ w, R w (c w).2.

(** What a method may do to local storage: leave the mirror key as it
    is or put the text of an array under it, and leave the other keys
    alone. *)
Definition mirror_step (w w' : World) : Prop :=
  (∀ k, k ≠ storageKey → localStorage w' !! k = localStorage w !! k) ∧
  (localStorage w' !! storageKey = localStorage w !! storageKey ∨
   ∃ xs, localStorage w' !! storageKey = Some (Json (JArr xs))).

(** The store is left alone: same rows, same verdicts to come. *)
Definition store_idle (w w' : World) : Prop :=
  events_table w' = events_table w ∧ supabase w' = supabase w.

(** The mirror is absent or holds the text of an array. *)
Definition tidy (w : World) : Prop :=
  localStorage w !! storageKey = None ∨
  ∃ xs, localStorage w !! storageKey = Some (Json (JArr xs)).

(** Two worlds that differ at most in the flag [useBackend]. *)
Definition agree (w1 w2 : World) : Prop :=
  with_useBackend false w1 = with_useBackend false w2.

(** Computation [c] does not read the flag: from worlds that agree it
    gives the same outcome and leaves worlds that agree. *)
Definition blind {A} (c : M A) : Prop :=
  ∀ w1 w2, agree w1 w2 → (c w1).1 = (c w2).1 ∧ agree (c w1).2 (c w2).2.

(** Computation [c] sets the flag before it reads it: from worlds that
    agree it does the very same thing. *)
Definition levelling {A} (c : M A) : Prop :=
  ∀ w1 w2, agree w1 w2 → c w1 = c w2.

(** Local storage, resp. session storage, is as it was. *)
Definition local_kept (w w' : World) : Prop :=
  localStorage w' = localStorage w.

Definition session_kept (w w' : World) : Prop :=
  sessionStorage w' = sessionStorage w.

(** ** Sample worlds

    A tab with a fresh service, nothing on the console and no request
    made yet. *)
Definition tab (local session : gmap string text) (replies : list reply)
  (verdicts : list verdict) (clock : string) : World :=
  mkWorld local session false replies [] verdicts [] clock [].

(** The identity record of a user, as kept under key [user]. *)
Definition asha : string := "3f2504e0-4f89-41d3-9a0c-0305e82c3301".

Definition user_asha : text := Json (JObj {[ "id" := JStr asha ]}).

(** The creation input of the scenario of the specification. *)
Definition launch : jsval :=
  JObj (list_to_map
    [ ("eventName", JStr "Launch");
      ("eventType", JStr "conference");
      ("audienceSize", JNum 50) ]).

(** Two mirrored records. *)
Definition gala : jsval :=
  JObj (list_to_map
    [ ("id", JStr "e-1");
      ("event_name", JStr "Gala");
      ("updatedAt", JStr "2025-06-01T12:00:00.000Z") ]).

Definition expo : jsval :=
  JObj (list_to_map [ ("id", JStr "e-2"); ("event_name", JStr "Expo") ]).

Definition shelf : gmap string text :=
  {[ storageKey := Json (JArr [gala; expo]) ]}.

(** Nobody signed in, nothing mirrored, no backend. *)
Definition nobody : World := tab ∅ ∅ [] [] "2025-06-01T12:00:00.000Z".

(** Two records mirrored, no backend. *)
Definition unplugged : World :=
  tab shelf ∅ [] [] "2025-06-01T12:00:00.001Z".

(** The same two records, the clock of the device behind the stamp that
    the first of them carries. *)
Definition skewed : World :=
  tab shelf ∅ [] [] "2025-06-01T11:59:59.000Z".

Definition to_pune : jsval := JObj {[ "city" := JStr "Pune" ]}.

Definition gala_in_pune : jsval :=
  JObj (list_to_map
    [ ("id", JStr "e-1");
      ("event_name", JStr "Gala");
      ("city", JStr "Pune");
      ("updatedAt", JStr "2025-06-01T11:59:59.000Z") ]).

(** The columns the store keeps for [launch]. *)
Definition launch_columns : events.columns :=
  {| events.id := "7c9e6679-7425-40de-944b-e07fc1f90ae7";
     events.event_name := "Launch";
     events.event_type := "conference";
     events.description := Some "";
     events.date := None;
     events.time := None;
     events.location := Some "";
     events.city := Some "";
     events.venue_type := Some "";
     events.audience_size := Some 50%Z;
     events.duration := Some "";
     events.created_at := Some "2025-06-01T12:00:00+00:00";
     events.updated_at := Some "2025-06-01T12:00:00+00:00" |}.

(** The user signed in for the session, nothing mirrored, no backend,
    and a store that accepts the next insert. *)
Definition signed_in : World :=
  tab ∅ {[ "user" := user_asha ]} []
    [Accept launch_columns] "2025-06-01T12:00:00.002Z".

(** The same, with text under the mirror key that is not JSON. *)
Definition spoilt : World :=
  tab {[ storageKey := Garbled ]} {[ "user" := user_asha ]} []
    [Accept launch_columns] "2025-06-01T12:00:00.002Z".

(** The same, with two records mirrored. *)
Definition returning : World :=
  tab shelf {[ "user" := user_asha ]} []
    [Accept launch_columns] "2025-06-01T12:00:00.002Z".

(** The same as [signed_in], the identity written in capitals. *)
Definition capitals : World :=
  tab ∅
    {[ "user" :=
         Json (JObj {[ "id" := JStr "3F2504E0-4F89-41D3-9A0C-0305E82C3301" ]}) ]}
    [] [Accept launch_columns] "2025-06-01T12:00:00.002Z".

(** The row the store persists for [launch] in these worlds. *)
Definition launched : jsval :=
  JObj (list_to_map
    [ ("id", JStr "7c9e6679-7425-40de-944b-e07fc1f90ae7");
      ("user_id", JStr "3f2504e0-4f89-41d3-9a0c-0305e82c3301");
      ("event_name", JStr "Launch");
      ("event_type", JStr "conference");
      ("description", JStr "");
      ("date", JNull);
      ("time", JNull);
      ("location", JStr "");
      ("city", JStr "");
      ("venue_type", JStr "");
      ("audience_size", JNum 50);
      ("duration", JStr "");
      ("created_at", JStr "2025-06-01T12:00:00+00:00");
      ("updated_at", JStr "2025-06-01T12:00:00+00:00") ]).

(** Two records mirrored; the backend answers the probe and then fails
    the request that follows it. *)
Definition flaky : World :=
  tab shelf ∅
    [Respond (JObj ∅); Reject (JStr "Request failed with status code 500")]
    [] "2025-06-01T12:00:00.003Z".

(** Text that is not JSON under the mirror key, with the same backend. *)
Definition spoilt_flaky : World :=
  tab {[ storageKey := Garbled ]} ∅
    [Respond (JObj ∅); Reject (JStr "Request failed with status code 500")]
    [] "2025-06-01T12:00:00.003Z".

(** Two records mirrored; the backend answers the probe, the remote
    delete, the second probe and the list request, the list being the
    second record alone. *)
Definition live : World :=
  tab shelf ∅
    [Respond (JObj ∅); Respond (JObj ∅); Respond (JObj ∅);
     Respond (JObj {[ "data" := JArr [expo] ]})]
    [] "2025-06-01T12:00:00.004Z".

(** The user signed in, and a store whose policy refuses the insert. *)
Definition denial : gmap string jsval :=
  list_to_map
    [ ("code", JStr "42501");
      ("message", JStr "new row violates row-level security policy") ].

Definition refused : World :=
  tab ∅ {[ "user" := user_asha ]} [] [Refuse denial]
    "2025-06-01T12:00:00.005Z".

(** Two records mirrored; the backend answers the probe and the update
    with a body that has no [data], then the second probe and the list
    request, the list being the two records. *)
Definition mute : World :=
  tab shelf ∅
    [Respond (JObj ∅); Respond (JObj {[ "ok" := JBool true ]});
     Respond (JObj ∅); Respond (JObj {[ "data" := JArr [gala; expo] ]})]
    [] "2025-06-01T12:00:00.006Z".

(** A mirror with a hole in the place of the first record, no backend. *)
Definition holed : World :=
  tab {[ storageKey := Json (JArr [JNull; expo]) ]} ∅ [] []
    "2025-06-01T12:00:00.007Z".

(** An identity record whose [id] is the number 0, kept for the session;
    the store would accept an insert. *)
Definition numbered : World :=
  tab ∅ {[ "user" := Json (JObj {[ "id" := JNum 0 ]}) ]} []
    [Accept launch_columns] "2025-06-01T12:00:00.008Z".

(** A mirror that holds each of the two records twice, no backend. *)
Definition twofold : World :=
  tab {[ storageKey := Json (JArr [expo; gala; expo; gala]) ]} ∅ [] []
    "2025-06-01T12:00:00.011Z".


(** A patch that gives the record another identifier. *)
Definition rename : jsval := JObj {[ "id" := JStr "e-7" ]}.

(** As [live], with text that is not JSON under the mirror key. *)
Definition spoilt_live : World :=
  tab {[ storageKey := Garbled ]} ∅
    [Respond (JObj ∅); Respond (JObj ∅); Respond (JObj ∅);
     Respond (JObj {[ "data" := JArr [expo] ]})]
    [] "2025-06-01T12:00:00.009Z".

(** ** The monad *)

Lemma bind_Return {A B} (c : M A) (k : A → M B) w a w' :
  c w = (Return a, w') → bind c k w = k a w'.
Proof. intros H. unfold bind. by rewrite H. Qed.

Lemma bind_Throw {A B} (c : M A) (k : A → M B) w e w' :
  c w = (Throw e, w') → bind c k w = (Throw e, w').
Proof. intros H. unfold bind. by rewrite H. Qed.

(** ** Arrays of records *)

Lemma id_is_not_negates id e :
  id_is_not id e = let? b := id_is id e in Return (negb b).
Proof. unfold id_is_not, id_is. by destruct (get_prop e "id"). Qed.

Lemma has_id_not_null id e : has_id id e → ∃ fs, e = JObj fs.
Proof.
  unfold has_id, id_is. destruct e; simpl; try discriminate; eauto.
Qed.

Lemma find_first id pre e post :
  Forall (lacks_id id) pre → has_id id e →
  find (id_is id) (pre ++ e :: post) = Return (Some e).
Proof.
  intros Hpre He. induction Hpre as [|x pre Hx _ IH]; simpl.
  - by rewrite He.
  - by rewrite Hx.
Qed.

Lemma find_none id evs :
  Forall (lacks_id id) evs → find (id_is id) evs = Return None.
Proof.
  induction 1 as [|x evs Hx _ IH]; simpl; [done|]. by rewrite Hx.
Qed.

Lemma find_no_match id evs :
  (∀ e, e ∈ evs → ¬ has_id id e) →
  find (id_is id) evs = Return None ∨ ∃ err, find (id_is id) evs = Throw err.
Proof.
  induction evs as [|x evs IH]; simpl; intros Hno; [by left|].
  destruct (id_is id x) as [[|]|err] eqn:Hx.
  - destruct (Hno x); [by left | done].
  - apply IH. intros e He. apply Hno. by right.
  - right. by exists err.
Qed.

Lemma findIndex_first id pre e post :
  Forall (lacks_id id) pre → has_id id e →
  findIndex (id_is id) (pre ++ e :: post) = Return (Some (length pre)).
Proof.
  intros Hpre He. induction Hpre as [|x pre Hx _ IH]; simpl.
  - by rewrite He.
  - by rewrite Hx, IH.
Qed.

Lemma findIndex_none id evs :
  Forall (lacks_id id) evs → findIndex (id_is id) evs = Return None.
Proof.
  induction 1 as [|x evs Hx _ IH]; simpl; [done|]. by rewrite Hx, IH.
Qed.

Lemma filter_keeps_all id evs :
  Forall (lacks_id id) evs → filter (id_is_not id) evs = Return evs.
Proof.
  induction 1 as [|x evs Hx _ IH]; simpl; [done|].
  rewrite id_is_not_negates, Hx. simpl. by rewrite IH.
Qed.

(** What [filter] keeps, when no callback throws: the elements that lack
    the identifier, in their order; every element had an [id] to read. *)
Lemma filter_Return id xs ys :
  filter (id_is_not id) xs = Return ys →
  Forall (lacks_id id) ys ∧ ys `sublist_of` xs ∧
  Forall (λ x, lacks_id id x ∨ has_id id x) xs ∧
  ∀ x, x ∈ xs → lacks_id id x → x ∈ ys.
Proof.
  revert ys. induction xs as [|x xs IH]; simpl; intros ys H.
  - injection H as <-.
    split_and!; [constructor | constructor | constructor |].
    by intros x Hx%elem_of_nil.
  - rewrite id_is_not_negates in H.
    destruct (id_is id x) as [b|] eqn:Hx; simpl in H; [|done].
    destruct (filter (id_is_not id) xs) as [zs|]; [|done].
    destruct (IH zs eq_refl) as (Hz & Hsub & Hall & Hin).
    injection H as <-. destruct b; simpl; split_and!.
    + done.
    + by apply sublist_cons.
    + constructor; [by right | done].
    + intros y Hy Hl. apply elem_of_cons in Hy as [->|Hy]; [|by auto].
      unfold lacks_id in Hl. congruence.
    + by constructor.
    + by apply sublist_skip.
    + constructor; [by left | done].
    + intros y Hy Hl. apply elem_of_cons in Hy as [->|Hy];
        [by left | right; auto].
Qed.

(** ** The probe and the list *)

Ltac run :=
  cbv [checkBackendConnection getAllEvents read_mirror try_catch bind axios
       ret throw lift set_useBackend get_useBackend local_getItem
       local_setItem console_error store_at Date_now_ISO];
  simpl.

Lemma read_mirror_cached w : read_mirror w = (cached w, w).
Proof. reflexivity. Qed.

Lemma checkBackendConnection_down w :
  offline w → checkBackendConnection w = (Return false, probed false w).
Proof.
  unfold offline, probed, answered. run.
  by destruct (rest w) as [|[e|d] q].
Qed.

Lemma offline_probed b w : offline w → offline (probed b w).
Proof.
  unfold offline. simpl. destruct (rest w) as [|r q]; simpl; [done|].
  by intros [_ H]%andb_prop.
Qed.

(** With the backend unavailable the list is what the mirror reads as; a
    mirror that cannot be parsed fails the read, once in the body and
    once more in the handler. *)
Lemma getAllEvents_down w :
  offline w →
  getAllEvents w =
    match cached w with
    | Return v => (Return v, probed false w)
    | Throw e =>
        (Throw e, with_console ("Error loading events:", e) (probed false w))
    end.
Proof.
  unfold offline, probed, answered, cached. run.
  destruct (rest w) as [|[e|d] q]; simpl; [| |done];
    by destruct (parsed_or_empty _).
Qed.

(** Reading the list writes to no storage and asks nothing of the store. *)
Lemma getAllEvents_frame w :
  localStorage (getAllEvents w).2 = localStorage w ∧
  sessionStorage (getAllEvents w).2 = sessionStorage w ∧
  supabase (getAllEvents w).2 = supabase w ∧
  events_table (getAllEvents w).2 = events_table w ∧
  now (getAllEvents w).2 = now w.
Proof.
  run.
  destruct (rest w) as [|[e|d] [|[e'|d'] q]]; simpl;
    try destruct (get_prop d' "data"); simpl;
    first [done | by destruct (parsed_or_empty _)].
Qed.

(** The list read depends on the mirror and on the replies to come, and
    on nothing else. *)
Lemma getAllEvents_value w1 w2 :
  localStorage w1 = localStorage w2 → rest w1 = rest w2 →
  (getAllEvents w1).1 = (getAllEvents w2).1.
Proof.
  intros Hl Hr. run. rewrite Hr.
  destruct (rest w2) as [|[e|d] [|[e'|d'] q]]; simpl; rewrite ?Hl;
    try destruct (get_prop d' "data"); simpl; rewrite ?Hl;
    first [done | by destruct (parsed_or_empty _)].
Qed.

Lemma cached_probed b w : cached (probed b w) = cached w.
Proof. reflexivity. Qed.

(** ** The four operations with the backend unavailable *)

Lemma getEventById_down id w evs :
  offline w → mirror w evs →
  getEventById id w =
    match find (id_is id) evs with
    | Return r => (Return r, probed false (probed false w))
    | Throw e =>
        (Return (Some JNull),
         with_console ("Error getting event:", e)
           (probed false (probed false w)))
    end.
Proof.
  intros Hoff Hm. unfold getEventById, try_catch, bind.
  rewrite (checkBackendConnection_down w Hoff). simpl.
  rewrite (getAllEvents_down _ (offline_probed false w Hoff)).
  rewrite cached_probed, Hm. simpl.
  by destruct (find (id_is id) evs).
Qed.

Lemma updateEvent_down id updates w evs :
  offline w → mirror w evs →
  updateEvent id updates w =
    let w2 := probed false (probed false w) in
    match findIndex (id_is id) evs with
    | Return (Some i) =>
        let merged :=
          JObj (<["updatedAt" := JStr (now w)]>
                  (own_props updates ∪ own_props_opt (evs !! i))) in
        (Return (Some merged),
         with_localStorage
           (insert storageKey (Json (JArr (<[i := merged]> evs)))) w2)
    | Return None =>
        (Throw (Error "Event not found"),
         with_console ("Error updating event:", Error "Event not found") w2)
    | Throw e => (Throw e, with_console ("Error updating event:", e) w2)
    end.
Proof.
  intros Hoff Hm. unfold updateEvent, try_catch, bind.
  rewrite (checkBackendConnection_down w Hoff). simpl.
  rewrite (getAllEvents_down _ (offline_probed false w Hoff)).
  rewrite cached_probed, Hm. simpl.
  by destruct (findIndex (id_is id) evs) as [[i|]|].
Qed.

Lemma deleteEvent_down id w evs :
  offline w → mirror w evs →
  deleteEvent id w =
    let w2 := probed false (probed false w) in
    match filter (id_is_not id) evs with
    | Return kept =>
        (Return true,
         with_localStorage (insert storageKey (Json (JArr kept))) w2)
    | Throw e => (Throw e, with_console ("Error deleting event:", e) w2)
    end.
Proof.
  intros Hoff Hm. unfold deleteEvent, try_catch, bind.
  rewrite (checkBackendConnection_down w Hoff). simpl.
  rewrite (getAllEvents_down _ (offline_probed false w Hoff)).
  rewrite cached_probed, Hm. simpl.
  by destruct (filter (id_is_not id) evs).
Qed.

Lemma mirror_written w evs :
  mirror (with_localStorage (insert storageKey (Json (JArr evs))) w) evs.
Proof.
  unfold mirror, cached. simpl. by rewrite lookup_insert_eq.
Qed.

(** ** The current identity *)

Lemma getCurrentUserId_total w :
  ∃ v w1, getCurrentUserId w = (Return v, w1) ∧
    localStorage w1 = localStorage w ∧ sessionStorage w1 = sessionStorage w ∧
    useBackend w1 = useBackend w ∧ rest w1 = rest w ∧ sent w1 = sent w ∧
    supabase w1 = supabase w ∧ events_table w1 = events_table w ∧
    now w1 = now w.
Proof.
  cbv [getCurrentUserId try_catch bind session_getItem local_getItem lift ret
       console_error].
  destruct (present (sessionStorage w !! "user")); simpl;
    repeat match goal with
    | |- context [if present ?x then _ else _] => destruct (present x); simpl
    | |- context [JSON_parse ?x] => destruct (JSON_parse x); simpl
    | |- context [get_prop ?x ?k] => destruct (get_prop x k); simpl
    end; eauto 12.
Qed.

(** ** Create without an identity *)

(** C1. Whatever the creation input, when [getCurrentUserId] returns
    [null] or [undefined], [createEvent] throws the error
    'User not authenticated'; the rows of the store and the verdicts it
    still has to give are as before (no insert was sent), and so is local
    storage, the mirror included. *)
Theorem createEvent_unauthenticated (eventData : jsval) (w w1 : World)
    (v : optional) :
  getCurrentUserId w = (Return v, w1) → absent v →
  ∃ w', createEvent eventData w = (Throw (Error "User not authenticated"), w')
    ∧ events_table w' = events_table w ∧ supabase w' = supabase w
    ∧ localStorage w' = localStorage w.
Proof.
  intros Hid Hv.
  destruct (getCurrentUserId_total w) as (v' & w1' & Hid' & Hl & _ & _ & _ & _ & Hs & Ht & _).
  rewrite Hid in Hid'. injection Hid' as <- <-.
  exists (with_console ("Error creating event:", Error "User not authenticated") w1).
  split; [|done].
  unfold createEvent, try_catch. rewrite (bind_Return _ _ _ _ _ Hid).
  by destruct Hv as [-> | ->].
Qed.

Lemma createEvent_unauthenticated_witness :
  ∃ w', createEvent launch nobody = (Throw (Error "User not authenticated"), w')
    ∧ events_table w' = events_table nobody ∧ supabase w' = supabase nobody
    ∧ localStorage w' = localStorage nobody.
Proof.
  apply (createEvent_unauthenticated launch nobody nobody (Some JNull)).
  - reflexivity.
  - by right.
Defined.

(** ** Get by id *)

(** C3, as the code has it. [getEventById] never throws: whatever the
    identifier and the world, it returns.  With the backend unavailable
    and the mirror holding the entries [evs], it returns the first record
    that carries the identifier, provided every entry before it is a
    record (not [null]) that carries another identifier or none; when no
    record carries the identifier it returns [null] or [undefined], and
    [undefined] for sure when every entry is a record. *)
Theorem getEventById_offline (id : jsval) (w : World) :
  (∃ r w', getEventById id w = (Return r, w')) ∧
  ∀ evs, offline w → mirror w evs →
    (∀ pre e post, evs = pre ++ e :: post →
       Forall (lacks_id id) pre → has_id id e →
       ∃ w', getEventById id w = (Return (Some e), w')) ∧
    ((∀ e, e ∈ evs → ¬ has_id id e) →
       ∃ r w', getEventById id w = (Return r, w') ∧ absent r) ∧
    (Forall (lacks_id id) evs →
       ∃ w', getEventById id w = (Return None, w')).
Proof.
  split.
  - unfold getEventById, try_catch.
    destruct (bind _ _ w) as [[r|e] w']; [by eauto|].
    by eexists _, _.
  - intros evs Hoff Hm. rewrite (getEventById_down id w evs Hoff Hm).
    split_and!.
    + intros pre e post -> Hpre He. rewrite (find_first id pre e post Hpre He).
      by eexists.
    + intros Hno. destruct (find_no_match id evs Hno) as [-> | [err ->]].
      * eexists _, _. split; [done | by left].
      * eexists _, _. split; [done | by right].
    + intros Hall. rewrite (find_none id evs Hall). by eexists.
Qed.

Lemma getEventById_offline_witness :
  (∃ w', getEventById (JStr "e-2") unplugged = (Return (Some expo), w')) ∧
  (∃ w', getEventById (JStr "e-3") unplugged = (Return None, w')).
Proof.
  destruct (getEventById_offline (JStr "e-2") unplugged) as [_ H2].
  destruct (getEventById_offline (JStr "e-3") unplugged) as [_ H3].
  split.
  - apply (proj1 (H2 [gala; expo] eq_refl eq_refl) [gala] expo []);
      [reflexivity | by repeat constructor | reflexivity].
  - apply (proj2 (proj2 (H3 [gala; expo] eq_refl eq_refl))).
    by repeat constructor.
Defined.

(** C3 as stated fails behind a [null] entry.  A live update answered
    without [data] leaves [null] in the place of the first record; the
    second record is still mirrored under its identifier, and with the
    backend unavailable [getEventById] on that identifier returns
    [null]. *)
Lemma getEventById_misses_behind_null :
  localStorage (updateEvent (JStr "e-1") to_pune mute).2 = localStorage holed
  ∧ offline holed
  ∧ mirror holed [JNull; expo]
  ∧ has_id (JStr "e-2") expo
  ∧ (getEventById (JStr "e-2") holed).1 = Return (Some JNull).
Proof. by vm_compute. Qed.

(** ** Update and delete of an identifier the mirror does not hold *)

(** C5, as the code has it. With the backend unavailable and the mirror
    holding entries every one of which is a record (not [null]) that
    carries another identifier or none, [updateEvent] throws the error
    'Event not found' and local storage, the mirror included, is as
    before. *)
Theorem updateEvent_offline_not_found (id updates : jsval) (w : World)
    (evs : list jsval) :
  offline w → mirror w evs → Forall (lacks_id id) evs →
  ∃ w', updateEvent id updates w = (Throw (Error "Event not found"), w')
    ∧ localStorage w' = localStorage w.
Proof.
  intros Hoff Hm Hall. rewrite (updateEvent_down id updates w evs Hoff Hm).
  rewrite (findIndex_none id evs Hall). by eexists.
Qed.

Lemma updateEvent_offline_not_found_witness :
  ∃ w', updateEvent (JStr "e-3") (JObj {[ "city" := JStr "Pune" ]}) unplugged
        = (Throw (Error "Event not found"), w')
    ∧ localStorage w' = localStorage unplugged.
Proof.
  apply (updateEvent_offline_not_found _ _ unplugged [gala; expo]);
    [reflexivity | reflexivity | by repeat constructor].
Defined.

(** C5 as stated fails where the mirror cannot be scanned: no record of
    the mirror carries [e-3], the backend is unavailable, and
    [updateEvent] throws a [TypeError] at the [null] entry, resp. the
    [SyntaxError] of [JSON.parse] where the mirror key holds text that is
    not JSON, in place of 'Event not found'. *)
Lemma updateEvent_absent_id_other_errors :
  offline holed
  ∧ mirror holed [JNull; expo]
  ∧ lacks_id (JStr "e-3") expo
  ∧ (updateEvent (JStr "e-3") to_pune holed).1 = Throw TypeError
  ∧ offline spoilt
  ∧ localStorage spoilt !! storageKey = Some Garbled
  ∧ (updateEvent (JStr "e-3") to_pune spoilt).1 = Throw SyntaxError.
Proof. by vm_compute. Qed.

(** C10, as the code has it. With the backend unavailable and the mirror
    holding entries every one of which is a record (not [null]) that
    carries another identifier or none, [deleteEvent] returns [true] and
    the mirror holds the same records in the same order; what is kept
    under the other keys of local storage is as before. *)
Theorem deleteEvent_offline_absent (id : jsval) (w : World)
    (evs : list jsval) :
  offline w → mirror w evs → Forall (lacks_id id) evs →
  ∃ w', deleteEvent id w = (Return true, w') ∧ mirror w' evs
    ∧ localStorage w' = <[storageKey := Json (JArr evs)]> (localStorage w).
Proof.
  intros Hoff Hm Hall. rewrite (deleteEvent_down id w evs Hoff Hm).
  rewrite (filter_keeps_all id evs Hall). eexists. split; [done|].
  split; [apply mirror_written | done].
Qed.

Lemma deleteEvent_offline_absent_witness :
  ∃ w', deleteEvent (JStr "e-3") unplugged = (Return true, w')
    ∧ mirror w' [gala; expo]
    ∧ localStorage w'
      = <[storageKey := Json (JArr [gala; expo])]> (localStorage unplugged).
Proof.
  apply (deleteEvent_offline_absent _ unplugged [gala; expo]);
    [reflexivity | reflexivity | by repeat constructor].
Defined.

(** C10 as stated fails where the mirror cannot be scanned: no record
    of the mirror carries [e-3], the backend is unavailable, and
    [deleteEvent] throws a [TypeError] at the [null] entry, resp. the
    [SyntaxError] of [JSON.parse] where the mirror key holds text that is
    not JSON; it does not return [true]. *)
Lemma deleteEvent_absent_id_throws :
  offline holed
  ∧ mirror holed [JNull; expo]
  ∧ lacks_id (JStr "e-3") expo
  ∧ (deleteEvent (JStr "e-3") holed).1 = Throw TypeError
  ∧ offline spoilt
  ∧ localStorage spoilt !! storageKey = Some Garbled
  ∧ (deleteEvent (JStr "e-3") spoilt).1 = Throw SyntaxError.
Proof. by vm_compute. Qed.

(** ** Update of a mirrored record *)

Lemma merged_fields (stamp : jsval) (patch old : gmap string jsval) :
  (<["updatedAt" := stamp]> (patch ∪ old)) !! "updatedAt" = Some stamp ∧
  ∀ k, k ≠ "updatedAt" →
    (<["updatedAt" := stamp]> (patch ∪ old)) !! k
    = match patch !! k with Some v => Some v | None => old !! k end.
Proof.
  split; [apply lookup_insert_eq|]. intros k Hk.
  rewrite lookup_insert_ne by done. rewrite lookup_union.
  by destruct (patch !! k), (old !! k).
Qed.

(** C4, as the code has it. With the backend unavailable, when the
    mirror holds a record that carries the identifier and every entry
    before the first such record is a record (not [null]), [updateEvent]
    replaces that first record by a record that has field [updatedAt]
    set to the reading of the clock, every other field of the patch with
    the value the patch gives, and the remaining fields as they were; the
    entries before and after it are untouched, and the merged record is
    returned.  Nothing compares the new stamp with an earlier one. *)
Theorem updateEvent_offline_merges (id updates : jsval) (w : World)
    (pre : list jsval) (e : jsval) (post : list jsval) :
  offline w → mirror w (pre ++ e :: post) →
  Forall (lacks_id id) pre → has_id id e →
  ∃ merged w',
    updateEvent id updates w = (Return (Some (JObj merged)), w')
    ∧ mirror w' (pre ++ JObj merged :: post)
    ∧ localStorage w'
      = <[storageKey := Json (JArr (pre ++ JObj merged :: post))]>
          (localStorage w)
    ∧ merged !! "updatedAt" = Some (JStr (now w))
    ∧ ∀ k, k ≠ "updatedAt" →
        merged !! k
        = match own_props updates !! k with
          | Some v => Some v
          | None => own_props e !! k
          end.
Proof.
  intros Hoff Hm Hpre He.
  rewrite (updateEvent_down id updates w _ Hoff Hm).
  rewrite (findIndex_first id pre e post Hpre He). cbv zeta.
  rewrite (list_lookup_middle pre post e _ eq_refl). simpl own_props_opt.
  replace (<[length pre := _]> (pre ++ e :: post)) with
    (pre ++ JObj (<["updatedAt" := JStr (now w)]>
                    (own_props updates ∪ own_props e)) :: post).
  2: { rewrite insert_app_r_alt by done. by rewrite Nat.sub_diag. }
  eexists _, _. split; [done|]. split; [apply mirror_written|].
  split; [done|]. apply merged_fields.
Qed.

Lemma updateEvent_offline_merges_witness :
  ∃ merged w',
    updateEvent (JStr "e-2") to_pune unplugged
      = (Return (Some (JObj merged)), w')
    ∧ mirror w' ([gala] ++ JObj merged :: [])
    ∧ localStorage w'
      = <[storageKey := Json (JArr ([gala] ++ JObj merged :: []))]>
          (localStorage unplugged)
    ∧ merged !! "updatedAt" = Some (JStr (now unplugged))
    ∧ ∀ k, k ≠ "updatedAt" →
        merged !! k
        = match own_props to_pune !! k with
          | Some v => Some v
          | None => own_props expo !! k
          end.
Proof.
  apply (updateEvent_offline_merges (JStr "e-2") to_pune unplugged
           [gala] expo []);
    [reflexivity | reflexivity | by repeat constructor | reflexivity].
Defined.

(** C4 as stated fails where the clock has not moved past the stamp a
    record carries: here the record is stamped 12:00:00.000, the clock
    reads 11:59:59.000, and the update leaves the record with the earlier
    stamp.  It also fails behind a [null] entry: the second record of the
    mirror carries [e-2], and the update of [e-2] throws a [TypeError]. *)
Lemma updateEvent_stamp_not_later :
  (updateEvent (JStr "e-1") to_pune skewed).1 = Return (Some gala_in_pune)
  ∧ get_prop gala "updatedAt"
    = Return (Some (JStr "2025-06-01T12:00:00.000Z"))
  ∧ get_prop gala_in_pune "updatedAt"
    = Return (Some (JStr "2025-06-01T11:59:59.000Z"))
  ∧ String.ltb "2025-06-01T12:00:00.000Z" "2025-06-01T11:59:59.000Z" = false
  ∧ mirror holed [JNull; expo]
  ∧ has_id (JStr "e-2") expo
  ∧ (updateEvent (JStr "e-2") to_pune holed).1 = Throw TypeError.
Proof. by vm_compute. Qed.

(** ** Reading back what an operation left *)

Lemma bind_inv {A B} (c : M A) (k : A → M B) w b w' :
  bind c k w = (Return b, w') →
  ∃ a w1, c w = (Return a, w1) ∧ k a w1 = (Return b, w').
Proof.
  unfold bind. destruct (c w) as [[a|e] w1]; [by eauto | done].
Qed.

(** A handler that logs and throws again lets only the body return. *)
Lemma rethrow_inv {A} (c : M A) (msg : string) w (a : A) w' :
  try_catch c (λ error, do! console_error msg error in throw error) w
    = (Return a, w') →
  c w = (Return a, w').
Proof.
  unfold try_catch. by destruct (c w) as [[a'|e] w1].
Qed.

Lemma lift_inv {A} (o : outcome A) w (a : A) w' :
  lift o w = (Return a, w') → o = Return a ∧ w' = w.
Proof. unfold lift. by intros [= -> ->]. Qed.

Lemma as_array_inv v xs : as_array v = Return xs → v = JArr xs.
Proof. destruct v; simpl; congruence. Qed.

Lemma cached_ext w1 w2 :
  localStorage w1 = localStorage w2 → cached w1 = cached w2.
Proof. unfold cached. by intros ->. Qed.

Lemma getAllEvents_offline_mirror w evs :
  offline w → mirror w evs →
  getAllEvents w = (Return (JArr evs), probed false w).
Proof. intros Hoff Hm. rewrite (getAllEvents_down w Hoff). by rewrite Hm. Qed.

Lemma lacks_not_has id e : lacks_id id e → ¬ has_id id e.
Proof. unfold lacks_id, has_id. congruence. Qed.

(** C6. Whenever [deleteEvent] returns, it returns [true], the mirror
    holds an array none of whose records carries the identifier, and a
    later [getAllEvents], made with the backend unavailable on a local
    storage nobody wrote to in between, returns that array. *)
Theorem deleteEvent_removes (id : jsval) (w w' : World) (b : bool) :
  deleteEvent id w = (Return b, w') →
  b = true ∧
  ∃ kept, mirror w' kept
    ∧ Forall (lacks_id id) kept ∧ (∀ e, e ∈ kept → ¬ has_id id e)
    ∧ ∀ w'', localStorage w'' = localStorage w' → offline w'' →
        ∃ w3, getAllEvents w'' = (Return (JArr kept), w3).
Proof.
  intros H. apply rethrow_inv in H.
  apply bind_inv in H as (_ & w1 & _ & H).
  apply bind_inv in H as (live & w2 & _ & H).
  apply bind_inv in H as (_ & w3 & _ & H).
  apply bind_inv in H as (events & w4 & _ & H).
  apply bind_inv in H as (xs & w5 & [Hxs ->]%lift_inv & H).
  apply bind_inv in H as (kept & w6 & [Hkept ->]%lift_inv & H).
  apply bind_inv in H as ([] & w7 & Hset & H).
  injection H as <- <-. injection Hset as <-.
  split; [done|]. exists kept.
  assert (Hm : mirror (with_localStorage
                         (insert storageKey (JSON_stringify (JArr kept))) w4)
                      kept) by apply mirror_written.
  destruct (filter_Return id xs kept Hkept) as (Hlacks & _).
  split_and!; [done | done | |].
  - intros e He. apply lacks_not_has.
    by eapply (proj1 (Forall_forall _ _)) in Hlacks.
  - intros w'' Hl Hoff. eexists.
    apply getAllEvents_offline_mirror; [done|].
    unfold mirror. by rewrite (cached_ext _ _ Hl).
Qed.

Lemma deleteEvent_removes_witness :
  true = true ∧
  ∃ kept,
    mirror (deleteEvent (JStr "e-1") unplugged).2 kept
    ∧ Forall (lacks_id (JStr "e-1")) kept
    ∧ (∀ e, e ∈ kept → ¬ has_id (JStr "e-1") e)
    ∧ ∀ w'', localStorage w''
             = localStorage (deleteEvent (JStr "e-1") unplugged).2 →
        offline w'' →
        ∃ w3, getAllEvents w'' = (Return (JArr kept), w3).
Proof.
  apply (deleteEvent_removes (JStr "e-1") unplugged
           (deleteEvent (JStr "e-1") unplugged).2 true).
  by vm_compute.
Defined.

(** ** Create *)

Lemma new_row_total userId eventData :
  eventData ≠ JNull →
  ∃ row, new_row userId eventData = Return row.
Proof. intros Hd. destruct eventData; by eauto. Qed.

Lemma new_row_keys userId eventData row :
  new_row userId eventData = Return row →
  row !! "id" = None ∧ row !! "user_id" = Some userId.
Proof.
  destruct eventData; simpl; try done; by intros [= <-].
Qed.

Lemma as_json_keys user_id cols :
  get_prop (as_json user_id cols) "id" = Return (Some (JStr (events.id cols)))
  ∧ get_prop (as_json user_id cols) "user_id" = Return (Some user_id).
Proof. by vm_compute. Qed.

(** A value the [uuid] column takes is a string that reads as a uuid,
    kept in the form the type writes. *)
Lemma uuid_column_inr userId user_id :
  truthy userId = true → uuid_column (Some userId) = inr user_id →
  ∃ s canonical, userId = JStr s ∧ uuid_text s = Some canonical
    ∧ user_id = JStr canonical.
Proof.
  intros Htr H. destruct userId as [| | |s| |]; try done.
  unfold uuid_column in H.
  destruct (uuid_text s) as [c|] eqn:Hc; [|done].
  exists s, c. by simplify_eq.
Qed.

Lemma uuid_text_truthy s canonical :
  uuid_text s = Some canonical → truthy (JStr s) = true.
Proof. by destruct s. Qed.

(** What has happened when [createEvent] returns. *)
Lemma createEvent_Return_inv eventData w r w' :
  createEvent eventData w = (Return r, w') →
  ∃ userId w1 row cols user_id verdicts xs w4,
    getCurrentUserId w = (Return (Some userId), w1) ∧ truthy userId = true ∧
    new_row userId eventData = Return row ∧
    supabase w1 = Accept cols :: verdicts ∧
    uuid_column (Some userId) = inr user_id ∧
    r = as_json user_id cols ∧
    getAllEvents (with_store verdicts (events_table w1 ++ [r]) w1)
      = (Return (JArr xs), w4) ∧
    w' = with_localStorage (insert storageKey (Json (JArr (r :: xs)))) w4.
Proof.
  intros H. apply rethrow_inv in H.
  apply bind_inv in H as (userId & w1 & Hid & H).
  apply bind_inv in H as ([] & w2 & Hauth & H).
  destruct userId as [userId|]; [|done]. simpl in Hauth.
  destruct (truthy userId) eqn:Htr; [|done]. injection Hauth as <-.
  apply bind_inv in H as (row & w3 & [Hrow ->]%lift_inv & H).
  apply bind_inv in H as ([newEvent error] & w4 & Hins & H).
  apply bind_inv in H as ([] & w5 & Herr & H).
  apply bind_inv in H as (events & w6 & Hall & H).
  apply bind_inv in H as (xs & w7 & [->%as_array_inv ->]%lift_inv & H).
  apply bind_inv in H as ([] & w8 & Hset & H).
  injection H as <- <-. injection Hset as <-.
  simpl default in Hrow. destruct (new_row_keys _ _ _ Hrow) as [_ Hu].
  unfold supabase_insert in Hins. rewrite Hu in Hins.
  destruct (supabase w1) as [|[refusal|cols] verdicts] eqn:Hs;
    [by injection Hins as <- <- <-..|].
  destruct (uuid_column (Some userId)) as [refusal|user_id] eqn:Hc;
    injection Hins as <- <- <-; [done|].
  injection Herr as <-.
  by eexists userId, w1, row, cols, user_id, verdicts, xs, w6.
Qed.



(** C2, as the code has it. For a creation input other than [null] and
    an identity that [getCurrentUserId] resolves to a string the store
    reads as a uuid, when the store accepts the insert and the list read
    that follows it is an array [evs], [createEvent] returns the persisted
    row; its [user_id] is the identity in the form the store writes a
    uuid (lower case, grouped 8-4-4-4-12: the resolved identity itself
    when it is written so), the mirror becomes that row followed by [evs]
    (which is the previous mirror when the backend is unavailable), and a
    later [getAllEvents], made with the backend unavailable on a local
    storage nobody wrote to in between, returns the row first. *)
Theorem createEvent_prepends (eventData : jsval) (w w1 : World)
    (uid canonical : string) (cols : events.columns)
    (verdicts : list verdict) (evs : list jsval) :
  getCurrentUserId w = (Return (Some (JStr uid)), w1) →
  uuid_text uid = Some canonical →
  eventData ≠ JNull →
  supabase w = Accept cols :: verdicts →
  (getAllEvents w).1 = Return (JArr evs) →
  ∃ r w', createEvent eventData w = (Return r, w')
    ∧ get_prop r "user_id" = Return (Some (JStr canonical))
    ∧ events_table w' = events_table w ++ [r]
    ∧ mirror w' (r :: evs)
    ∧ (offline w → mirror w evs)
    ∧ ∀ w'', localStorage w'' = localStorage w' → offline w'' →
        ∃ w3, getAllEvents w'' = (Return (JArr (r :: evs)), w3).
Proof.
  intros Hid Hc Hd Hs Hlist.
  pose proof (uuid_text_truthy _ _ Hc) as Htr.
  destruct (getCurrentUserId_total w)
    as (v' & w1' & Hid' & Hl1 & _ & _ & Hr1 & _ & Hs1 & Ht1 & _).
  rewrite Hid in Hid'. injection Hid' as <- <-.
  destruct (new_row_total (JStr uid) eventData Hd) as [row Hrow].
  destruct (new_row_keys _ _ _ Hrow) as [_ Hru].
  set (r := as_json (JStr canonical) cols).
  set (w3 := with_store verdicts (events_table w1 ++ [r]) w1).
  destruct (getAllEvents_frame w3) as (Hl4 & _ & _ & Ht4 & _).
  pose proof (getAllEvents_value w3 w Hl1 Hr1) as Hval.
  rewrite Hlist in Hval.
  destruct (getAllEvents w3) as [o w4] eqn:Hall. simpl in Hval, Hl4, Ht4.
  subst o.
  set (w' := with_localStorage (insert storageKey (Json (JArr (r :: evs)))) w4).
  assert (Hm : mirror w' (r :: evs)) by apply mirror_written.
  exists r, w'. split_and!.
  - unfold createEvent, try_catch. rewrite (bind_Return _ _ _ _ _ Hid).
    change (truthy_opt (Some (JStr uid))) with (truthy (JStr uid)).
    rewrite Htr.
    unfold bind at 1. unfold ret at 1.
    unfold bind at 1. unfold lift at 1. simpl default. rewrite Hrow.
    unfold bind at 1. unfold supabase_insert. rewrite Hs1, Hs, Hru.
    unfold uuid_column. rewrite Hc.
    fold r. fold w3. simpl truthy. cbv iota.
    unfold bind at 1. unfold ret at 1.
    unfold bind at 1. by rewrite Hall.
  - done.
  - simpl. rewrite Ht4. simpl. by rewrite Ht1.
  - done.
  - intros Hoff. rewrite (getAllEvents_down w Hoff) in Hlist.
    unfold mirror. by destruct (cached w).
  - intros w'' Hl Hoff. eexists.
    apply getAllEvents_offline_mirror; [done|].
    unfold mirror. by rewrite (cached_ext _ _ Hl).
Qed.

Lemma createEvent_prepends_witness :
  ∃ r w', createEvent launch returning = (Return r, w')
    ∧ get_prop r "user_id" = Return (Some (JStr asha))
    ∧ events_table w' = events_table returning ++ [r]
    ∧ mirror w' (r :: [gala; expo])
    ∧ (offline returning → mirror returning [gala; expo])
    ∧ ∀ w'', localStorage w'' = localStorage w' → offline w'' →
        ∃ w3, getAllEvents w'' = (Return (JArr (r :: [gala; expo])), w3).
Proof.
  apply (createEvent_prepends launch returning returning asha asha
           launch_columns [] [gala; expo]);
    [reflexivity | by vm_compute | done | reflexivity | reflexivity].
Defined.

(** C2 as stated fails where the list cannot be read: a user is signed
    in, the store accepts the insert and persists the row, the mirror key
    holds text that is not JSON and the backend is unavailable;
    [createEvent] throws, and the mirror is as it was.  It also fails in
    the letter where the identity is written in capitals: the store takes
    it, and the [user_id] of the record returned is in lower case. *)
Lemma createEvent_throws_after_insert :
  (getCurrentUserId spoilt).1 = Return (Some (JStr asha))
  ∧ supabase spoilt = [Accept launch_columns]
  ∧ (createEvent launch spoilt).1 = Throw SyntaxError
  ∧ events_table (createEvent launch spoilt).2 = [launched]
  ∧ localStorage (createEvent launch spoilt).2 = localStorage spoilt
  ∧ (getCurrentUserId capitals).1
    = Return (Some (JStr "3F2504E0-4F89-41D3-9A0C-0305E82C3301"))
  ∧ (createEvent launch capitals).1 = Return launched
  ∧ get_prop launched "user_id"
    = Return (Some (JStr "3f2504e0-4f89-41d3-9a0c-0305e82c3301")).
Proof. by vm_compute. Qed.

(** ** Delete *)

Lemma filter_total id evs :
  Forall (λ e, e ≠ JNull) evs → ∃ kept, filter (id_is_not id) evs = Return kept.
Proof.
  induction 1 as [|x evs Hx _ [kept IH]]; simpl; [by eauto|].
  rewrite IH. unfold id_is_not. destruct x; simpl; by eauto.
Qed.

Lemma checkBackendConnection_up w d q :
  rest w = Respond d :: q →
  checkBackendConnection w = (Return true, probed true w).
Proof. intros Hr. unfold probed, answered. run. by rewrite Hr. Qed.

Lemma axios_answered r w d q :
  rest w = Respond d :: q → axios r w = (Return d, answered r w).
Proof. intros Hr. unfold axios, answered. by rewrite Hr. Qed.

Lemma axios_failed r w :
  (∀ d q, rest w ≠ Respond d :: q) →
  ∃ e, axios r w = (Throw (Rejection e), answered r w).
Proof.
  intros Hr. unfold axios, answered.
  destruct (rest w) as [|[e|d] q]; [by eauto | by eauto |].
  by destruct (Hr d q).
Qed.

Lemma rest_probed b w : rest (probed b w) = tail (rest w).
Proof. reflexivity. Qed.

(** C7, as the code has it. [deleteEvent] returns [true], leaving a
    mirror without a record of that identifier, when the backend is
    unavailable (no remote delete is sent) and when the remote delete is
    answered, provided the list read is an array without a [null] entry.
    When the backend answers the probe and fails the remote delete,
    [deleteEvent] throws that failure and local storage is as before. *)
Theorem deleteEvent_outcomes (id : jsval) (w : World) :
  (∀ evs, offline w → mirror w evs → Forall (λ e, e ≠ JNull) evs →
     ∃ kept w', deleteEvent id w = (Return true, w')
       ∧ mirror w' kept ∧ Forall (lacks_id id) kept) ∧
  (∀ d d' q evs, rest w = Respond d :: Respond d' :: q →
     (getAllEvents (answered (DELETE (EventAt id)) (probed true w))).1
       = Return (JArr evs) →
     Forall (λ e, e ≠ JNull) evs →
     ∃ kept w', deleteEvent id w = (Return true, w')
       ∧ mirror w' kept ∧ Forall (lacks_id id) kept) ∧
  (∀ d q, rest w = Respond d :: q →
     (∀ d' q', q ≠ Respond d' :: q') →
     ∃ e w', deleteEvent id w = (Throw (Rejection e), w')
       ∧ localStorage w' = localStorage w).
Proof.
  split_and!.
  - intros evs Hoff Hm Hrec. rewrite (deleteEvent_down id w evs Hoff Hm).
    destruct (filter_total id evs Hrec) as [kept Hk]. rewrite Hk.
    destruct (filter_Return id evs kept Hk) as [Hl _].
    eexists kept, _. split; [done|]. split; [apply mirror_written | done].
  - intros d d' q evs Hr Hlist Hrec.
    destruct (filter_total id evs Hrec) as [kept Hk].
    destruct (filter_Return id evs kept Hk) as [Hl _].
    set (w2 := answered (DELETE (EventAt id)) (probed true w)) in *.
    destruct (getAllEvents w2) as [o w3] eqn:Hall. simpl in Hlist. subst o.
    exists kept,
      (with_localStorage (insert storageKey (Json (JArr kept))) w3).
    split; [|split; [apply mirror_written | done]].
    assert (Hr2 : rest (probed true w) = Respond d' :: q)
      by (by rewrite rest_probed, Hr).
    unfold deleteEvent, try_catch.
    rewrite (bind_Return _ _ _ _ _ (checkBackendConnection_up w d _ Hr)).
    rewrite (bind_Return get_useBackend _ (probed true w) true _ eq_refl).
    cbv beta iota.
    rewrite (bind_Return _ _ (probed true w) () w2).
    2: { by rewrite (bind_Return _ _ _ _ _ (axios_answered _ _ _ _ Hr2)). }
    rewrite (bind_Return _ _ _ _ _ Hall).
    rewrite (bind_Return _ _ _ evs w3 eq_refl).
    rewrite (bind_Return _ _ _ kept w3); [done|].
    unfold lift. by rewrite Hk.
  - intros d q Hr Hq.
    destruct (axios_failed (DELETE (EventAt id)) (probed true w)) as [e He].
    { intros d' q'. rewrite rest_probed, Hr. apply Hq. }
    unfold deleteEvent, try_catch.
    rewrite (bind_Return _ _ _ _ _ (checkBackendConnection_up w d _ Hr)).
    rewrite (bind_Return get_useBackend _ (probed true w) true _ eq_refl).
    cbv beta iota.
    rewrite (bind_Throw _ _ (probed true w) (Rejection e)
               (answered (DELETE (EventAt id)) (probed true w))).
    2: { by rewrite (bind_Throw _ _ _ _ _ He). }
    by eexists _, _.
Qed.

Lemma deleteEvent_outcomes_witness :
  (∃ kept w', deleteEvent (JStr "e-1") unplugged = (Return true, w')
     ∧ mirror w' kept ∧ Forall (lacks_id (JStr "e-1")) kept) ∧
  (∃ kept w', deleteEvent (JStr "e-1") live = (Return true, w')
     ∧ mirror w' kept ∧ Forall (lacks_id (JStr "e-1")) kept) ∧
  (∃ e w', deleteEvent (JStr "e-1") flaky = (Throw (Rejection e), w')
     ∧ localStorage w' = localStorage flaky).
Proof.
  split_and!.
  - apply (proj1 (deleteEvent_outcomes (JStr "e-1") unplugged)
             [gala; expo]);
      [reflexivity | reflexivity | by repeat constructor].
  - apply (proj1 (proj2 (deleteEvent_outcomes (JStr "e-1") live))
             (JObj ∅) (JObj ∅)
             [Respond (JObj ∅); Respond (JObj {[ "data" := JArr [expo] ]})]
             [expo]);
      [reflexivity | reflexivity | by repeat constructor].
  - apply (proj2 (proj2 (deleteEvent_outcomes (JStr "e-1") flaky))
             (JObj ∅)
             [Reject (JStr "Request failed with status code 500")] eq_refl).
    by intros d' q'.
Defined.

(** C7 as stated fails where the backend answers the probe and fails the
    remote delete: [deleteEvent] throws what the request was rejected
    with, and the mirror still holds both records.  It also fails, with
    the backend unavailable, where the mirror key holds text that is not
    JSON. *)
Lemma deleteEvent_remote_failure :
  (deleteEvent (JStr "e-1") flaky).1
    = Throw (Rejection (JStr "Request failed with status code 500"))
  ∧ localStorage (deleteEvent (JStr "e-1") flaky).2 !! storageKey
    = Some (Json (JArr [gala; expo]))
  ∧ (deleteEvent (JStr "e-1") spoilt).1 = Throw SyntaxError.
Proof. by vm_compute. Qed.

(** ** List *)

(** C8, as the code has it. When the text under the mirror key, if any,
    is JSON — the mirror reads as [v], the empty array when nothing is
    kept — [getAllEvents] returns and writes nothing to local storage.
    It returns [v] when the backend is unavailable and when the live path
    throws (the probe is answered and then the list request fails, or is
    answered with a [null] body); when the live path completes it returns
    the payload, or the empty array for a falsy payload.  The result is
    an array whenever the mirror holds one and every truthy payload is
    one. *)
Theorem getAllEvents_degrades (w : World) (v : jsval) :
  cached w = Return v →
  ∃ r w', getAllEvents w = (Return r, w')
    ∧ localStorage w' = localStorage w
    ∧ (localStorage w !! storageKey = None → v = JArr [])
    ∧ (offline w → r = v)
    ∧ (∀ d q, rest w = Respond d :: q →
         (∀ d' q', q = Respond d' :: q' → d' = JNull) → r = v)
    ∧ (∀ d d' q p, rest w = Respond d :: Respond d' :: q →
         get_prop d' "data" = Return p → r = or_else p (JArr []))
    ∧ ((∃ xs, v = JArr xs) →
       (∀ d d' q p, rest w = Respond d :: Respond d' :: q →
          get_prop d' "data" = Return (Some p) → truthy p = true →
          ∃ ys, p = JArr ys) →
       ∃ zs, r = JArr zs).
Proof.
  intros Hc.
  assert (Habs : localStorage w !! storageKey = None → v = JArr []).
  { intros Hn. unfold cached in Hc. rewrite Hn in Hc. by injection Hc. }
  unfold cached in Hc. unfold offline. run.
  destruct (rest w) as [|[e|d] [|[e'|d'] q]] eqn:Hr; simpl;
    try destruct (get_prop d' "data") as [p|] eqn:Hp; simpl;
    rewrite ?Hc; eexists _, _; (split; [reflexivity|]);
    (split; [reflexivity|]); (split; [exact Habs|]).
  all: split_and!; try done.
  - intros d0 q0 [= _ <-] H. specialize (H _ _ eq_refl). by subst d'.
  - intros d0 d1 q0 p0 [= _ <- _] Hp'. congruence.
  - intros [xs ->] Hpay. destruct p as [p|]; simpl; [|by eauto].
    destruct (truthy p) eqn:Htr; [|by eauto].
    by apply (Hpay d d' q p).
  - intros d0 d1 q0 p0 [= _ <- _] Hp'. congruence.
Qed.

Lemma getAllEvents_degrades_witness :
  ∃ r w', getAllEvents flaky = (Return r, w')
    ∧ localStorage w' = localStorage flaky
    ∧ (localStorage flaky !! storageKey = None → JArr [gala; expo] = JArr [])
    ∧ (offline flaky → r = JArr [gala; expo])
    ∧ (∀ d q, rest flaky = Respond d :: q →
         (∀ d' q', q = Respond d' :: q' → d' = JNull) →
         r = JArr [gala; expo])
    ∧ (∀ d d' q p, rest flaky = Respond d :: Respond d' :: q →
         get_prop d' "data" = Return p → r = or_else p (JArr []))
    ∧ ((∃ xs, JArr [gala; expo] = JArr xs) →
       (∀ d d' q p, rest flaky = Respond d :: Respond d' :: q →
          get_prop d' "data" = Return (Some p) → truthy p = true →
          ∃ ys, p = JArr ys) →
       ∃ zs, r = JArr zs).
Proof.
  apply (getAllEvents_degrades flaky (JArr [gala; expo])). reflexivity.
Defined.

(** C8 as stated fails where the mirror key holds text that is not JSON:
    with the backend unavailable, and likewise when the live path throws,
    the handler parses the same text again and [getAllEvents] throws. *)
Lemma getAllEvents_throws_on_garbled :
  (getAllEvents spoilt).1 = Throw SyntaxError
  ∧ (getAllEvents spoilt_flaky).1 = Throw SyntaxError.
Proof. by vm_compute. Qed.

(** ** What the methods leave alone *)

Section Respects.
Context (R : relation World) `{!PreOrder R}.

Lemma respects_ret {A} (a : A) : respects R (ret a).
Proof. intros w. simpl. reflexivity. Qed.

Lemma respects_throw {A} (e : exn) : respects R (@throw A e).
Proof. intros w. simpl. reflexivity. Qed.

Lemma respects_lift {A} (o : outcome A) : respects R (lift o).
Proof. intros w. simpl. reflexivity. Qed.

Lemma respects_bind {A B} (c : M A) (k : A → M B) :
  respects R c → (∀ a, respects R (k a)) → respects R (bind c k).
Proof.
  intros Hc Hk w. unfold bind. specialize (Hc w).
  destruct (c w) as [[a|e] w1]; simpl in *; [|done].
  etrans; [exact Hc | apply Hk].
Qed.

Lemma respects_try_catch {A} (c : M A) (h : exn → M A) :
  respects R c → (∀ e, respects R (h e)) → respects R (try_catch c h).
Proof.
  intros Hc Hh w. unfold try_catch. specialize (Hc w).
  destruct (c w) as [[a|e] w1]; simpl in *; [done|].
  etrans; [exact Hc | apply Hh].
Qed.

(** The steps that touch neither local storage nor the store. *)
Hypothesis R_console : ∀ l w, R w (with_console l w).
Hypothesis R_flag : ∀ b w, R w (with_useBackend b w).
Hypothesis R_rest : ∀ q r w, R w (with_rest q r w).

Lemma respects_console_error msg e : respects R (console_error msg e).
Proof. intros w. apply R_console. Qed.

Lemma respects_axios r : respects R (axios r).
Proof.
  intros w. unfold axios. destruct (rest w) as [|[e|d] q]; apply R_rest.
Qed.

Lemma respects_checkBackendConnection : respects R checkBackendConnection.
Proof.
  apply respects_try_catch.
  - apply respects_bind; [apply respects_axios|]. intros _.
    apply respects_bind; [|intros; apply respects_ret].
    intros w. apply R_flag.
  - intros _. apply respects_bind; [|intros; apply respects_ret].
    intros w. apply R_flag.
Qed.

Lemma respects_getCurrentUserId : respects R getCurrentUserId.
Proof.
  apply respects_try_catch.
  - apply respects_bind; [intros w; simpl; reflexivity|]. intros s.
    apply respects_bind.
    + destruct (present s); [apply respects_ret|]. intros w. simpl.
      reflexivity.
    + intros u. destruct (present u); [|apply respects_ret].
      apply respects_bind; [apply respects_lift|]. intros user.
      apply respects_lift.
  - intros e. apply respects_bind; [apply respects_console_error|].
    intros; apply respects_ret.
Qed.

Lemma respects_read_mirror : respects R read_mirror.
Proof. intros w. simpl. reflexivity. Qed.

Lemma respects_getAllEvents : respects R getAllEvents.
Proof.
  apply respects_try_catch.
  - apply respects_bind; [apply respects_checkBackendConnection|]. intros _.
    apply respects_bind; [intros w; simpl; reflexivity|]. intros [|].
    + apply respects_bind; [apply respects_axios|]. intros d.
      apply respects_bind; [apply respects_lift|]. intros; apply respects_ret.
    + apply respects_read_mirror.
  - intros e. apply respects_bind; [apply respects_console_error|].
    intros _. apply respects_read_mirror.
Qed.

Lemma respects_getEventById id : respects R (getEventById id).
Proof.
  apply respects_try_catch.
  - apply respects_bind; [apply respects_checkBackendConnection|]. intros _.
    apply respects_bind; [intros w; simpl; reflexivity|]. intros [|].
    + apply respects_bind; [apply respects_axios|]. intros d.
      apply respects_lift.
    + apply respects_bind; [apply respects_getAllEvents|]. intros events.
      apply respects_bind; [apply respects_lift|]. intros xs.
      apply respects_lift.
  - intros e. apply respects_bind; [apply respects_console_error|].
    intros; apply respects_ret.
Qed.

(** The steps that write the mirror. *)
Hypothesis R_mirror : ∀ xs w,
  R w (with_localStorage (insert storageKey (Json (JArr xs))) w).

Lemma respects_set_mirror xs :
  respects R (local_setItem storageKey (JSON_stringify (JArr xs))).
Proof. intros w. apply R_mirror. Qed.

Lemma respects_updateEvent id updates : respects R (updateEvent id updates).
Proof.
  apply respects_try_catch.
  - apply respects_bind; [apply respects_checkBackendConnection|]. intros _.
    apply respects_bind; [intros w; simpl; reflexivity|]. intros [|].
    + apply respects_bind; [apply respects_axios|]. intros d.
      apply respects_bind; [apply respects_lift|]. intros updated.
      apply respects_bind; [apply respects_getAllEvents|]. intros events.
      apply respects_bind; [apply respects_lift|]. intros xs.
      apply respects_bind; [apply respects_lift|]. intros [i|].
      * apply respects_bind; [apply respects_set_mirror|].
        intros; apply respects_ret.
      * apply respects_bind; intros; apply respects_ret.
    + apply respects_bind; [apply respects_getAllEvents|]. intros events.
      apply respects_bind; [apply respects_lift|]. intros xs.
      apply respects_bind; [apply respects_lift|]. intros [i|].
      * apply respects_bind; [intros w; simpl; reflexivity|]. intros stamp.
        apply respects_bind; [apply respects_set_mirror|].
        intros; apply respects_ret.
      * apply respects_throw.
  - intros e. apply respects_bind; [apply respects_console_error|].
    intros; apply respects_throw.
Qed.

Lemma respects_deleteEvent id : respects R (deleteEvent id).
Proof.
  apply respects_try_catch.
  - apply respects_bind; [apply respects_checkBackendConnection|]. intros _.
    apply respects_bind; [intros w; simpl; reflexivity|]. intros live.
    apply respects_bind.
    { destruct live; [|apply respects_ret].
      apply respects_bind; [apply respects_axios|].
      intros; apply respects_ret. }
    intros _.
    apply respects_bind; [apply respects_getAllEvents|]. intros events.
    apply respects_bind; [apply respects_lift|]. intros xs.
    apply respects_bind; [apply respects_lift|]. intros kept.
    apply respects_bind; [apply respects_set_mirror|].
    intros; apply respects_ret.
  - intros e. apply respects_bind; [apply respects_console_error|].
    intros; apply respects_throw.
Qed.

(** The step that writes to the store. *)
Hypothesis R_store : ∀ q rows w, R w (with_store q rows w).

Lemma respects_supabase_insert row : respects R (supabase_insert row).
Proof.
  intros w. unfold supabase_insert.
  destruct (supabase w) as [|[error|cols] q]; simpl;
    [reflexivity | apply R_store |].
  destruct (uuid_column (row !! "user_id")); apply R_store.
Qed.

Lemma respects_createEvent eventData : respects R (createEvent eventData).
Proof.
  apply respects_try_catch.
  - apply respects_bind; [apply respects_getCurrentUserId|]. intros userId.
    apply respects_bind.
    { destruct (truthy_opt userId);
        [apply respects_ret | apply respects_throw]. }
    intros _.
    apply respects_bind; [apply respects_lift|]. intros row.
    apply respects_bind; [apply respects_supabase_insert|].
    intros [newEvent error].
    apply respects_bind.
    { destruct (truthy error); [|apply respects_ret].
      apply respects_bind; [apply respects_console_error|].
      intros; apply respects_throw. }
    intros _.
    apply respects_bind; [apply respects_getAllEvents|]. intros events.
    apply respects_bind; [apply respects_lift|]. intros xs.
    apply respects_bind; [apply respects_set_mirror|].
    intros; apply respects_ret.
  - intros e. apply respects_bind; [apply respects_console_error|].
    intros; apply respects_throw.
Qed.
End Respects.

#[local] Instance mirror_step_preorder : PreOrder mirror_step.
Proof.
  split.
  - intros w. split; [done | by left].
  - intros w1 w2 w3 [Ho12 Hm12] [Ho23 Hm23]. split.
    + intros k Hk. by rewrite (Ho23 k Hk), (Ho12 k Hk).
    + destruct Hm23 as [Heq | Harr]; [|by right].
      rewrite Heq. exact Hm12.
Qed.

#[local] Instance store_idle_preorder : PreOrder store_idle.
Proof.
  split.
  - by intros w.
  - intros w1 w2 w3 [Ht12 Hs12] [Ht23 Hs23]. split; congruence.
Qed.

Lemma mirror_step_write xs w :
  mirror_step w (with_localStorage (insert storageKey (Json (JArr xs))) w).
Proof.
  split; simpl.
  - intros k Hk. by rewrite lookup_insert_ne.
  - right. exists xs. by rewrite lookup_insert_eq.
Qed.

Lemma mirror_step_same w w' :
  localStorage w' = localStorage w → mirror_step w w'.
Proof. intros Hl. split; [by rewrite Hl | left; by rewrite Hl]. Qed.

Ltac frame R :=
  first [ apply (respects_createEvent R) | apply (respects_updateEvent R)
        | apply (respects_deleteEvent R) | apply (respects_getEventById R)
        | apply (respects_getAllEvents R) ];
  try (intros; first [ by apply mirror_step_same
                     | by apply mirror_step_write
                     | by split ]).

Lemma mirror_step_tidy w w' : mirror_step w w' → tidy w → tidy w'.
Proof.
  intros [_ [Heq | Harr]] Ht; [|by right]. unfold tidy. by rewrite Heq.
Qed.

Lemma tidy_cached w : tidy w → ∃ xs, cached w = Return (JArr xs).
Proof.
  unfold cached. intros [-> | [xs ->]]; by eauto.
Qed.

(** Every method leaves the keys of local storage other than the mirror
    key as they were, and under the mirror key either what was there or
    the text of an array.  So a mirror that is absent or holds an array
    stays so, and in such a world the list can always be read: it never
    throws and is an array of the mirror or whatever the endpoint sent. *)
Theorem mirror_stays_tidy (w : World) :
  (∀ eventData, mirror_step w (createEvent eventData w).2) ∧
  (∀ id updates, mirror_step w (updateEvent id updates w).2) ∧
  (∀ id, mirror_step w (deleteEvent id w).2) ∧
  (∀ id, mirror_step w (getEventById id w).2) ∧
  mirror_step w (getAllEvents w).2 ∧
  (tidy w →
     (∀ eventData, tidy (createEvent eventData w).2) ∧
     (∀ id updates, tidy (updateEvent id updates w).2) ∧
     (∀ id, tidy (deleteEvent id w).2) ∧
     (∃ xs, mirror w xs) ∧
     ∃ r w', getAllEvents w = (Return r, w')).
Proof.
  assert (Hc : ∀ eventData, mirror_step w (createEvent eventData w).2).
  { intros eventData. frame mirror_step. }
  assert (Hu : ∀ id updates, mirror_step w (updateEvent id updates w).2).
  { intros id updates. frame mirror_step. }
  assert (Hd : ∀ id, mirror_step w (deleteEvent id w).2).
  { intros id. frame mirror_step. }
  split_and!; try done.
  - intros id. frame mirror_step.
  - frame mirror_step.
  - intros Ht. split_and!.
    + intros eventData. apply (mirror_step_tidy w _ (Hc eventData) Ht).
    + intros id updates. apply (mirror_step_tidy w _ (Hu id updates) Ht).
    + intros id. apply (mirror_step_tidy w _ (Hd id) Ht).
    + apply (tidy_cached w Ht).
    + destruct (tidy_cached w Ht) as [xs Hx]. unfold cached in Hx. run.
      destruct (rest w) as [|[e|d] [|[e'|d'] q]]; simpl;
        try destruct (get_prop d' "data"); simpl; rewrite ?Hx; by eauto.
Qed.

Lemma mirror_stays_tidy_witness :
  (∀ eventData, tidy (createEvent eventData flaky).2) ∧
  (∀ id updates, tidy (updateEvent id updates flaky).2) ∧
  (∀ id, tidy (deleteEvent id flaky).2) ∧
  (∃ xs, mirror flaky xs) ∧
  ∃ r w', getAllEvents flaky = (Return r, w').
Proof.
  apply (proj2 (proj2 (proj2 (proj2 (proj2 (mirror_stays_tidy flaky)))))).
  right. by exists [gala; expo].
Defined.

(** Only [createEvent] talks to the store: the other four methods leave
    the rows of table [events] and the verdicts the store has still to
    give as they were, with the backend available or not, returning or
    throwing. *)
Theorem store_reached_by_create_only (w : World) :
  store_idle w (getAllEvents w).2 ∧
  (∀ id, store_idle w (getEventById id w).2) ∧
  (∀ id updates, store_idle w (updateEvent id updates w).2) ∧
  (∀ id, store_idle w (deleteEvent id w).2).
Proof.
  split_and!.
  - frame store_idle.
  - intros id. frame store_idle.
  - intros id updates. frame store_idle.
  - intros id. frame store_idle.
Qed.

(** The identity resolver fails soft: it never throws and writes to no
    storage.  An identity record kept for the session wins over one kept
    in local storage; a record that is not JSON, or is [null], gives
    [null]. *)
Theorem getCurrentUserId_fails_soft (w : World) :
  ∃ v w', getCurrentUserId w = (Return v, w')
    ∧ localStorage w' = localStorage w
    ∧ sessionStorage w' = sessionStorage w
    ∧ (∀ fs, sessionStorage w !! "user" = Some (Json (JObj fs)) →
         v = fs !! "id")
    ∧ (∀ fs, present (sessionStorage w !! "user") = false →
         localStorage w !! "user" = Some (Json (JObj fs)) → v = fs !! "id")
    ∧ (sessionStorage w !! "user" = Some Garbled → v = Some JNull)
    ∧ (sessionStorage w !! "user" = Some (Json JNull) → v = Some JNull)
    ∧ (present (sessionStorage w !! "user") = false →
       present (localStorage w !! "user") = false → v = Some JNull).
Proof.
  cbv [getCurrentUserId try_catch bind session_getItem local_getItem lift ret
       console_error].
  destruct (sessionStorage w !! "user") as [[| |s]|] eqn:Hs; simpl.
  2: by eexists _, _; split_and!.
  2: { destruct s; simpl; eexists _, _; split_and!; try done;
         intros; by simplify_eq. }
  all: destruct (localStorage w !! "user") as [[| |l]|] eqn:Hl; simpl;
    try (by eexists _, _; split_and!).
  all: destruct l; simpl; eexists _, _; split_and!; try done;
    intros; by simplify_eq.
Qed.

(** A refusal of the store is logged twice and thrown to the caller as
    it came; no row is added and local storage is as before. *)
Theorem createEvent_store_refusal (eventData : jsval) (w w1 : World)
    (uid : jsval) (error : gmap string jsval) (verdicts : list verdict) :
  getCurrentUserId w = (Return (Some uid), w1) → truthy uid = true →
  eventData ≠ JNull →
  supabase w = Refuse error :: verdicts →
  ∃ w', createEvent eventData w = (Throw (Rejection (JObj error)), w')
    ∧ events_table w' = events_table w
    ∧ localStorage w' = localStorage w
    ∧ console w'
      = [ ("Error creating event:", Rejection (JObj error));
          ("Error creating event in Supabase:", Rejection (JObj error)) ]
        ++ console w1.
Proof.
  intros Hid Htr Hd Hs.
  destruct (getCurrentUserId_total w)
    as (v' & w1' & Hid' & Hl1 & _ & _ & _ & _ & Hs1 & Ht1 & _).
  rewrite Hid in Hid'. injection Hid' as <- <-.
  destruct (new_row_total uid eventData Hd) as [row Hrow].
  eexists. split.
  - unfold createEvent, try_catch. rewrite (bind_Return _ _ _ _ _ Hid).
    simpl truthy_opt. rewrite Htr.
    unfold bind at 1. unfold ret at 1.
    unfold bind at 1. unfold lift at 1. simpl default. rewrite Hrow.
    unfold bind at 1. unfold supabase_insert. rewrite Hs1, Hs.
    reflexivity.
  - by simpl.
Qed.

Lemma createEvent_store_refusal_witness :
  ∃ w', createEvent launch refused = (Throw (Rejection (JObj denial)), w')
    ∧ events_table w' = events_table refused
    ∧ localStorage w' = localStorage refused
    ∧ console w'
      = [ ("Error creating event:", Rejection (JObj denial));
          ("Error creating event in Supabase:", Rejection (JObj denial)) ]
        ++ console refused.
Proof.
  apply (createEvent_store_refusal launch refused refused (JStr asha)
           denial []);
    [reflexivity | reflexivity | done | reflexivity].
Defined.



Lemma filter_keeps id evs :
  Forall (λ e, e ≠ JNull) evs →
  filter (id_is_not id) evs = Return (List.filter (keeps id) evs).
Proof.
  induction 1 as [|x evs Hx _ IH]; [done|].
  simpl. rewrite IH. unfold keeps, id_is_not, id_is.
  destruct x; try done; simpl; by destruct (strict_eq _ id).
Qed.

(** With the backend unavailable and a mirror every entry of which is a
    record (not [null]), [deleteEvent] returns [true] and leaves as the
    mirror exactly the entries that do not carry the identifier, each as
    often as it was there and in the order they had. *)
Theorem deleteEvent_offline_keeps_others (id : jsval) (w : World)
    (evs : list jsval) :
  offline w → mirror w evs → Forall (λ e, e ≠ JNull) evs →
  ∃ w', deleteEvent id w = (Return true, w')
    ∧ mirror w' (List.filter (keeps id) evs).
Proof.
  intros Hoff Hm Hrec. rewrite (deleteEvent_down id w evs Hoff Hm).
  rewrite (filter_keeps id evs Hrec).
  eexists. split; [done | apply mirror_written].
Qed.

Lemma deleteEvent_offline_keeps_others_witness :
  ∃ w', deleteEvent (JStr "e-1") twofold = (Return true, w')
    ∧ mirror w' [expo; expo].
Proof.
  apply (deleteEvent_offline_keeps_others (JStr "e-1") twofold
           [expo; gala; expo; gala]);
    [reflexivity | reflexivity | by repeat constructor].
Defined.

(** ** The flag and the probe *)

Lemma agree_refl w : agree w w.
Proof. done. Qed.

Lemma agree_flag b w : agree (with_useBackend b w) w.
Proof. done. Qed.

Lemma agree_fields w1 w2 :
  agree w1 w2 →
  localStorage w1 = localStorage w2 ∧ sessionStorage w1 = sessionStorage w2 ∧
  rest w1 = rest w2 ∧ sent w1 = sent w2 ∧ supabase w1 = supabase w2 ∧
  events_table w1 = events_table w2 ∧ now w1 = now w2 ∧
  console w1 = console w2.
Proof. unfold agree, with_useBackend. by intros [= -> -> -> -> -> -> -> ->]. Qed.

Lemma agree_intro w1 w2 :
  localStorage w1 = localStorage w2 → sessionStorage w1 = sessionStorage w2 →
  rest w1 = rest w2 → sent w1 = sent w2 → supabase w1 = supabase w2 →
  events_table w1 = events_table w2 → now w1 = now w2 →
  console w1 = console w2 → agree w1 w2.
Proof.
  unfold agree, with_useBackend. by intros -> -> -> -> -> -> -> ->.
Qed.

Lemma blind_ret {A} (a : A) : blind (ret a).
Proof. by intros w1 w2 H. Qed.

Lemma blind_throw {A} (e : exn) : blind (@throw A e).
Proof. by intros w1 w2 H. Qed.

Lemma blind_lift {A} (o : outcome A) : blind (lift o).
Proof. by intros w1 w2 H. Qed.

Lemma blind_bind {A B} (c : M A) (k : A → M B) :
  blind c → (∀ a, blind (k a)) → blind (bind c k).
Proof.
  intros Hc Hk w1 w2 H. unfold bind. destruct (Hc w1 w2 H) as [Ho Hw].
  destruct (c w1) as [[a1|e1] w1'], (c w2) as [[a2|e2] w2'];
    simpl in *; try done.
  - injection Ho as <-. by apply Hk.
  - by injection Ho as <-.
Qed.

Lemma blind_try_catch {A} (c : M A) (h : exn → M A) :
  blind c → (∀ e, blind (h e)) → blind (try_catch c h).
Proof.
  intros Hc Hh w1 w2 H. unfold try_catch. destruct (Hc w1 w2 H) as [Ho Hw].
  destruct (c w1) as [[a1|e1] w1'], (c w2) as [[a2|e2] w2'];
    simpl in *; try done.
  injection Ho as <-. by apply Hh.
Qed.

Lemma levelling_blind {A} (c : M A) : levelling c → blind c.
Proof. intros Hc w1 w2 H. by rewrite (Hc w1 w2 H). Qed.

(** What runs after a levelling step sees one and the same world. *)
Lemma levelling_bind {A B} (c : M A) (k : A → M B) :
  levelling c → levelling (bind c k).
Proof. intros Hc w1 w2 H. unfold bind. by rewrite (Hc w1 w2 H). Qed.

Lemma levelling_try_catch {A} (c : M A) (h : exn → M A) :
  levelling c → levelling (try_catch c h).
Proof. intros Hc w1 w2 H. unfold try_catch. by rewrite (Hc w1 w2 H). Qed.

Lemma levelling_checkBackendConnection : levelling checkBackendConnection.
Proof.
  intros w1 w2 H.
  destruct (agree_fields w1 w2 H) as (Hl & Hs & Hr & Hq & Hv & Ht & Hn & Hc).
  run. rewrite Hr. unfold with_useBackend, with_rest. simpl.
  destruct (rest w2) as [|[e|d] q]; simpl; congruence.
Qed.

Lemma blind_console_error msg e : blind (console_error msg e).
Proof.
  intros w1 w2 H. split; [done|].
  destruct (agree_fields w1 w2 H) as (Hl & Hs & Hr & Hq & Hv & Ht & Hn & Hc).
  apply agree_intro; simpl; congruence.
Qed.

Lemma blind_getCurrentUserId : blind getCurrentUserId.
Proof.
  apply blind_try_catch.
  - apply blind_bind.
    { intros w1 w2 H. split; [|done]. simpl.
      by destruct (agree_fields w1 w2 H) as (_ & -> & _). }
    intros s. apply blind_bind.
    { destruct (present s); [apply blind_ret|].
      intros w1 w2 H. split; [|done]. simpl.
      by destruct (agree_fields w1 w2 H) as (-> & _). }
    intros u. destruct (present u); [|apply blind_ret].
    apply blind_bind; [apply blind_lift|]. intros user. apply blind_lift.
  - intros e. apply blind_bind; [apply blind_console_error|].
    intros; apply blind_ret.
Qed.

Lemma blind_supabase_insert row : blind (supabase_insert row).
Proof.
  intros w1 w2 H.
  destruct (agree_fields w1 w2 H) as (Hl & Hs & Hr & Hq & Hv & Ht & Hn & Hc).
  unfold supabase_insert. rewrite Hv, Ht.
  destruct (supabase w2) as [|[error|cols] q];
    [|
     |destruct (uuid_column (row !! "user_id"))]; simpl;
    (split; [done|]); try done; apply agree_intro; simpl; congruence.
Qed.

Lemma levelling_getAllEvents : levelling getAllEvents.
Proof.
  apply levelling_try_catch, levelling_bind, levelling_checkBackendConnection.
Qed.

Lemma blind_createEvent eventData : blind (createEvent eventData).
Proof.
  apply blind_try_catch.
  - apply blind_bind; [apply blind_getCurrentUserId|]. intros userId.
    apply blind_bind.
    { destruct (truthy_opt userId); [apply blind_ret | apply blind_throw]. }
    intros _. apply blind_bind; [apply blind_lift|]. intros row.
    apply blind_bind; [apply blind_supabase_insert|].
    intros [newEvent error]. apply blind_bind.
    { destruct (truthy error); [|apply blind_ret].
      apply blind_bind; [apply blind_console_error|].
      intros; apply blind_throw. }
    intros _. apply levelling_blind, levelling_bind, levelling_getAllEvents.
  - intros e. apply blind_bind; [apply blind_console_error|].
    intros; apply blind_throw.
Qed.

(** No method trusts the flag an earlier call, or the constructor, left
    in [useBackend].  The four methods that branch on it probe first, so
    they do the very same thing whatever the flag was; [createEvent] does
    not read it before it lists the events, so it gives the same outcome
    and leaves the same world up to the flag. *)
Theorem flag_is_never_trusted (b : bool) (w : World) :
  getAllEvents (with_useBackend b w) = getAllEvents w ∧
  (∀ id, getEventById id (with_useBackend b w) = getEventById id w) ∧
  (∀ id updates,
     updateEvent id updates (with_useBackend b w) = updateEvent id updates w) ∧
  (∀ id, deleteEvent id (with_useBackend b w) = deleteEvent id w) ∧
  (∀ eventData,
     (createEvent eventData (with_useBackend b w)).1
       = (createEvent eventData w).1 ∧
     agree (createEvent eventData (with_useBackend b w)).2
           (createEvent eventData w).2).
Proof.
  pose proof (agree_flag b w) as H. split_and!.
  - by apply levelling_getAllEvents.
  - intros id.
    by apply (levelling_try_catch _ _
                (levelling_bind _ _ levelling_checkBackendConnection)).
  - intros id updates.
    by apply (levelling_try_catch _ _
                (levelling_bind _ _ levelling_checkBackendConnection)).
  - intros id.
    by apply (levelling_try_catch _ _
                (levelling_bind _ _ levelling_checkBackendConnection)).
  - intros eventData. by apply blind_createEvent.
Qed.

(** The probe never throws and writes to no storage.  It makes one
    request, [GET /events], uses up one reply, and both returns and
    records in [useBackend] whether that request was answered; a refusal
    and a dead network alike give [false]. *)
Theorem checkBackendConnection_probe (w : World) :
  ∃ b w', checkBackendConnection w = (Return b, w')
    ∧ useBackend w' = b
    ∧ (b = true ↔ ∃ d q, rest w = Respond d :: q)
    ∧ sent w' = GET Events :: sent w
    ∧ rest w' = tail (rest w)
    ∧ localStorage w' = localStorage w
    ∧ sessionStorage w' = sessionStorage w
    ∧ console w' = console w.
Proof.
  run. destruct (rest w) as [|[e|d] q] eqn:Hr; simpl;
    eexists _, _; split_and!; try done.
  - split; [done | by intros (d & q & ?)].
  - split; [done | by intros (d & q' & ?)].
  - split; [by eauto | done].
Qed.

(** ** With the backend available *)

(** With the backend available [getEventById] answers from the endpoint
    alone: it returns the [data] of the reply, be it [undefined], and
    when the request for the record fails, or is answered with a [null]
    body, it returns [null].  The mirror is neither consulted nor
    written, so a record that is mirrored is not found while the endpoint
    fails to deliver it. *)
Theorem getEventById_live (id : jsval) (w : World) (d : jsval)
    (q : list reply) :
  rest w = Respond d :: q →
  ∃ r w', getEventById id w = (Return r, w')
    ∧ localStorage w' = localStorage w
    ∧ (∀ d' q' p, q = Respond d' :: q' →
         get_prop d' "data" = Return p → r = p)
    ∧ ((∀ d' q', q = Respond d' :: q' → d' = JNull) → r = Some JNull).
Proof.
  intros Hr.
  cbv [getEventById checkBackendConnection try_catch bind axios ret throw lift
       set_useBackend get_useBackend console_error].
  rewrite Hr. simpl.
  destruct q as [|[e|d'] q']; simpl;
    try destruct (get_prop d' "data") as [p|err] eqn:Hp; simpl;
    eexists _, _; split_and!; try done.
  - intros d0 q0 p0 [= <- _] Hp0. congruence.
  - intros H. specialize (H _ _ eq_refl). by subst d'.
  - intros d0 q0 p0 [= <- _] Hp0. congruence.
Qed.

Lemma getEventById_live_witness :
  ∃ r w', getEventById (JStr "e-1") flaky = (Return r, w')
    ∧ localStorage w' = localStorage flaky
    ∧ (∀ d' q' p,
         [Reject (JStr "Request failed with status code 500")]
           = Respond d' :: q' →
         get_prop d' "data" = Return p → r = p)
    ∧ ((∀ d' q',
          [Reject (JStr "Request failed with status code 500")]
            = Respond d' :: q' → d' = JNull) →
       r = Some JNull).
Proof.
  apply (getEventById_live (JStr "e-1") flaky (JObj ∅)
           [Reject (JStr "Request failed with status code 500")]).
  reflexivity.
Defined.

(** With the backend available [updateEvent] sends the patch to the
    endpoint.  When that request fails the failure is thrown and local
    storage is as before: the patch is not applied to the mirror.  When
    it is answered with a body other than [null], the [data] of that body
    is returned, be it [undefined], provided the list then read anew is
    an array that can be scanned: where a record of it carries the
    identifier and every entry before the first such record is a record
    (not [null]), that first record is replaced by the [data] ([null]
    for [undefined]) and the whole list becomes the mirror; where every
    entry of it is a record that carries another identifier or none,
    local storage is as before. *)
Theorem updateEvent_live (id updates : jsval) (w : World) (d : jsval)
    (q : list reply) :
  rest w = Respond d :: q →
  ((∀ d' q', q ≠ Respond d' :: q') →
     ∃ e w', updateEvent id updates w = (Throw (Rejection e), w')
       ∧ localStorage w' = localStorage w) ∧
  (∀ d' q' p xs, q = Respond d' :: q' → get_prop d' "data" = Return p →
     (getAllEvents (answered (PUT (EventAt id) updates) (probed true w))).1
       = Return (JArr xs) →
     (∀ pre e post, xs = pre ++ e :: post →
        Forall (lacks_id id) pre → has_id id e →
        ∃ w', updateEvent id updates w = (Return p, w')
          ∧ mirror w' (pre ++ default JNull p :: post)) ∧
     (Forall (lacks_id id) xs →
        ∃ w', updateEvent id updates w = (Return p, w')
          ∧ localStorage w' = localStorage w)).
Proof.
  intros Hr.
  split.
  - intros Hq.
    destruct (axios_failed (PUT (EventAt id) updates) (probed true w))
      as [e He].
    { intros d' q'. rewrite rest_probed, Hr. apply Hq. }
    unfold updateEvent, try_catch.
    rewrite (bind_Return _ _ _ _ _ (checkBackendConnection_up w d _ Hr)).
    rewrite (bind_Return get_useBackend _ (probed true w) true _ eq_refl).
    cbv beta iota. rewrite (bind_Throw _ _ _ _ _ He). by eexists _, _.
  - intros d' q' p xs -> Hp Hlist.
    assert (Hr2 : rest (probed true w) = Respond d' :: q')
      by (by rewrite rest_probed, Hr).
    set (w2 := answered (PUT (EventAt id) updates) (probed true w)) in *.
    destruct (getAllEvents_frame w2) as (Hl3 & _).
    destruct (getAllEvents w2) as [o w3] eqn:Hall. simpl in Hlist, Hl3.
    subst o.
    assert (Hgo : ∀ i,
      findIndex (id_is id) xs = Return i →
      updateEvent id updates w =
        match i with
        | Some i =>
            (Return p,
             with_localStorage
               (insert storageKey (Json (JArr (<[i := default JNull p]> xs))))
               w3)
        | None => (Return p, w3)
        end).
    { intros i Hi. unfold updateEvent, try_catch.
      rewrite (bind_Return _ _ _ _ _ (checkBackendConnection_up w d _ Hr)).
      rewrite (bind_Return get_useBackend _ (probed true w) true _ eq_refl).
      cbv beta iota.
      rewrite (bind_Return _ _ _ _ _ (axios_answered _ _ _ _ Hr2)).
      fold w2. rewrite (bind_Return _ _ w2 p w2); [|unfold lift; by rewrite Hp].
      rewrite (bind_Return _ _ _ _ _ Hall).
      rewrite (bind_Return _ _ _ xs w3 eq_refl).
      rewrite (bind_Return _ _ w3 i w3); [|unfold lift; by rewrite Hi].
      by destruct i. }
    split.
    + intros pre e post -> Hpre He.
      rewrite (Hgo _ (findIndex_first id pre e post Hpre He)).
      rewrite insert_app_r_alt by done. rewrite Nat.sub_diag. simpl.
      eexists. split; [done | apply mirror_written].
    + intros Hnone. rewrite (Hgo _ (findIndex_none id xs Hnone)).
      eexists. split; [done|]. rewrite Hl3. unfold w2. done.
Qed.

Lemma updateEvent_live_witness :
  (∃ e w', updateEvent (JStr "e-1") to_pune flaky = (Throw (Rejection e), w')
     ∧ localStorage w' = localStorage flaky) ∧
  (∃ w', updateEvent (JStr "e-1") to_pune mute = (Return None, w')
     ∧ mirror w' ([] ++ default JNull None :: [expo])) ∧
  (∃ w', updateEvent (JStr "e-3") to_pune mute = (Return None, w')
     ∧ localStorage w' = localStorage mute).
Proof.
  split_and!.
  - apply (proj1 (updateEvent_live (JStr "e-1") to_pune flaky (JObj ∅)
                    [Reject (JStr "Request failed with status code 500")]
                    eq_refl)).
    by intros d' q'.
  - apply (proj1 (proj2 (updateEvent_live (JStr "e-1") to_pune mute (JObj ∅)
                           _ eq_refl)
                    (JObj {[ "ok" := JBool true ]})
                    [Respond (JObj ∅);
                     Respond (JObj {[ "data" := JArr [gala; expo] ]})]
                    None [gala; expo] eq_refl eq_refl eq_refl)
             [] gala [expo]);
      [reflexivity | by constructor | reflexivity].
  - apply (proj2 (proj2 (updateEvent_live (JStr "e-3") to_pune mute (JObj ∅)
                           _ eq_refl)
                    (JObj {[ "ok" := JBool true ]})
                    [Respond (JObj ∅);
                     Respond (JObj {[ "data" := JArr [gala; expo] ]})]
                    None [gala; expo] eq_refl eq_refl eq_refl)).
    by repeat constructor.
Defined.

(** ** A hole in the mirror *)

Lemma id_is_not_Throw id x e : id_is_not id x = Throw e → e = TypeError.
Proof. unfold id_is_not. destruct x; simpl; congruence. Qed.

Lemma id_is_Throw id x e : id_is id x = Throw e → e = TypeError.
Proof. unfold id_is. destruct x; simpl; congruence. Qed.

Lemma filter_null id xs :
  JNull ∈ xs → filter (id_is_not id) xs = Throw TypeError.
Proof.
  induction xs as [|x xs IH]; intros Hin; [by apply elem_of_nil in Hin|].
  simpl. destruct (id_is_not id x) as [b|e] eqn:Hx.
  - apply elem_of_cons in Hin as [<- | Hin]; [done|]. by rewrite (IH Hin).
  - by rewrite (id_is_not_Throw _ _ _ Hx).
Qed.

Lemma find_hole id pre post :
  Forall (lacks_id id) pre →
  find (id_is id) (pre ++ JNull :: post) = Throw TypeError.
Proof.
  induction 1 as [|x pre Hx _ IH]; simpl; [done|]. by rewrite Hx.
Qed.

Lemma findIndex_hole id pre post :
  Forall (lacks_id id) pre →
  findIndex (id_is id) (pre ++ JNull :: post) = Throw TypeError.
Proof.
  induction 1 as [|x pre Hx _ IH]; simpl; [done|]. by rewrite Hx, IH.
Qed.

(** A [null] entry in the mirror (what a live update answered without
    [data] leaves in the place of the record) breaks the methods that
    scan the mirror while the backend is unavailable: [deleteEvent]
    throws a [TypeError] for every identifier, and for an identifier not
    carried by a record before the hole [updateEvent] throws a
    [TypeError] and [getEventById] returns [null], although a record
    behind the hole may carry it.  Local storage is left as it was. *)
Theorem null_entry_breaks_offline (id : jsval) (w : World)
    (pre post : list jsval) :
  offline w → mirror w (pre ++ JNull :: post) →
  (∃ w', deleteEvent id w = (Throw TypeError, w')
     ∧ localStorage w' = localStorage w) ∧
  (Forall (lacks_id id) pre →
     (∀ updates, ∃ w', updateEvent id updates w = (Throw TypeError, w')
        ∧ localStorage w' = localStorage w) ∧
     ∃ w', getEventById id w = (Return (Some JNull), w')
        ∧ localStorage w' = localStorage w).
Proof.
  intros Hoff Hm. split.
  - rewrite (deleteEvent_down id w _ Hoff Hm).
    rewrite filter_null; [by eexists|].
    apply elem_of_app. right. by left.
  - intros Hpre. split.
    + intros updates. rewrite (updateEvent_down id updates w _ Hoff Hm).
      rewrite (findIndex_hole id pre post Hpre). by eexists.
    + rewrite (getEventById_down id w _ Hoff Hm).
      rewrite (find_hole id pre post Hpre). by eexists.
Qed.

Lemma null_entry_breaks_offline_witness :
  (∃ w', deleteEvent (JStr "e-2") holed = (Throw TypeError, w')
     ∧ localStorage w' = localStorage holed) ∧
  (Forall (lacks_id (JStr "e-2")) [] →
     (∀ updates, ∃ w', updateEvent (JStr "e-2") updates holed
                       = (Throw TypeError, w')
        ∧ localStorage w' = localStorage holed) ∧
     ∃ w', getEventById (JStr "e-2") holed = (Return (Some JNull), w')
        ∧ localStorage w' = localStorage holed).
Proof.
  apply (null_entry_breaks_offline (JStr "e-2") holed [] [expo]);
    reflexivity.
Defined.

(** ** What is written and what is sent *)

#[local] Instance local_kept_preorder : PreOrder local_kept.
Proof.
  split; [by intros w|]. intros w1 w2 w3 H12 H23. unfold local_kept in *.
  congruence.
Qed.

#[local] Instance session_kept_preorder : PreOrder session_kept.
Proof.
  split; [by intros w|]. intros w1 w2 w3 H12 H23. unfold session_kept in *.
  congruence.
Qed.

(** The methods that read write nothing: the probe, [getAllEvents] and
    [getEventById] leave local storage exactly as it was, returning or
    throwing, with the backend available or not; in particular a list
    fetched from the endpoint is not mirrored.  And no method at all
    writes to session storage. *)
Theorem reads_write_nothing (w : World) :
  local_kept w (checkBackendConnection w).2 ∧
  local_kept w (getAllEvents w).2 ∧
  (∀ id, local_kept w (getEventById id w).2) ∧
  session_kept w (checkBackendConnection w).2 ∧
  session_kept w (getCurrentUserId w).2 ∧
  session_kept w (getAllEvents w).2 ∧
  (∀ id, session_kept w (getEventById id w).2) ∧
  (∀ eventData, session_kept w (createEvent eventData w).2) ∧
  (∀ id updates, session_kept w (updateEvent id updates w).2) ∧
  (∀ id, session_kept w (deleteEvent id w).2).
Proof.
  split_and!; intros.
  - by apply (respects_checkBackendConnection local_kept).
  - by apply (respects_getAllEvents local_kept).
  - by apply (respects_getEventById local_kept).
  - by apply (respects_checkBackendConnection session_kept).
  - by apply (respects_getCurrentUserId session_kept).
  - by apply (respects_getAllEvents session_kept).
  - by apply (respects_getEventById session_kept).
  - by apply (respects_createEvent session_kept).
  - by apply (respects_updateEvent session_kept).
  - by apply (respects_deleteEvent session_kept).
Qed.

(** While the backend is unavailable nothing but probes leaves the
    device: [getAllEvents] makes one [GET /events], and [getEventById],
    [updateEvent] and [deleteEvent] two (their own probe and that of the
    list they read), whatever the mirror holds and whether they return or
    throw.  No update and no delete is sent. *)
Theorem offline_sends_probes_only (id updates : jsval) (w : World) :
  offline w →
  sent (getAllEvents w).2 = GET Events :: sent w ∧
  sent (getEventById id w).2 = GET Events :: GET Events :: sent w ∧
  sent (updateEvent id updates w).2 = GET Events :: GET Events :: sent w ∧
  sent (deleteEvent id w).2 = GET Events :: GET Events :: sent w.
Proof.
  intros Hoff.
  pose proof (offline_probed false w Hoff) as Hoff1.
  split_and!.
  - rewrite (getAllEvents_down w Hoff). by destruct (cached w).
  - unfold getEventById, try_catch, bind.
    rewrite (checkBackendConnection_down w Hoff). simpl.
    rewrite (getAllEvents_down _ Hoff1). rewrite cached_probed.
    destruct (cached w) as [v|e]; simpl; [|done].
    destruct (as_array v) as [xs|e]; simpl; [|done].
    by destruct (find (id_is id) xs).
  - unfold updateEvent, try_catch, bind.
    rewrite (checkBackendConnection_down w Hoff). simpl.
    rewrite (getAllEvents_down _ Hoff1). rewrite cached_probed.
    destruct (cached w) as [v|e]; simpl; [|done].
    destruct (as_array v) as [xs|e]; simpl; [|done].
    by destruct (findIndex (id_is id) xs) as [[i|]|].
  - unfold deleteEvent, try_catch, bind.
    rewrite (checkBackendConnection_down w Hoff). simpl.
    rewrite (getAllEvents_down _ Hoff1). rewrite cached_probed.
    destruct (cached w) as [v|e]; simpl; [|done].
    destruct (as_array v) as [xs|e]; simpl; [|done].
    by destruct (filter (id_is_not id) xs).
Qed.

Lemma offline_sends_probes_only_witness :
  sent (getAllEvents spoilt).2 = GET Events :: sent spoilt ∧
  sent (getEventById (JStr "e-1") spoilt).2
    = GET Events :: GET Events :: sent spoilt ∧
  sent (updateEvent (JStr "e-1") to_pune spoilt).2
    = GET Events :: GET Events :: sent spoilt ∧
  sent (deleteEvent (JStr "e-1") spoilt).2
    = GET Events :: GET Events :: sent spoilt.
Proof.
  apply (offline_sends_probes_only (JStr "e-1") to_pune spoilt). reflexivity.
Defined.

(** ** One operation after another *)

(** What has happened when [deleteEvent] returns. *)
Lemma deleteEvent_Return_inv id w b w' :
  deleteEvent id w = (Return b, w') →
  b = true ∧ ∃ xs kept w4,
    filter (id_is_not id) xs = Return kept ∧
    w' = with_localStorage (insert storageKey (Json (JArr kept))) w4.
Proof.
  intros H. apply rethrow_inv in H.
  apply bind_inv in H as (_ & w1 & _ & H).
  apply bind_inv in H as (live & w2 & _ & H).
  apply bind_inv in H as (_ & w3 & _ & H).
  apply bind_inv in H as (events & w4 & _ & H).
  apply bind_inv in H as (xs & w5 & [Hxs ->]%lift_inv & H).
  apply bind_inv in H as (kept & w6 & [Hkept ->]%lift_inv & H).
  apply bind_inv in H as ([] & w7 & Hset & H).
  injection H as <- <-. injection Hset as <-.
  split; [done|]. by exists xs, kept, w4.
Qed.

Lemma mirror_ext w1 w2 evs :
  localStorage w1 = localStorage w2 → mirror w2 evs → mirror w1 evs.
Proof. unfold mirror. intros Hl. by rewrite (cached_ext _ _ Hl). Qed.

(** After [deleteEvent] has returned, and as long as nobody writes to
    local storage and the backend is unavailable, the identifier is
    gone for the other methods: [getEventById] returns [undefined],
    [updateEvent] throws 'Event not found', and deleting once more
    returns [true] and leaves local storage as it is. *)
Theorem deleteEvent_then (id : jsval) (w w' : World) (b : bool) :
  deleteEvent id w = (Return b, w') →
  ∀ w2, localStorage w2 = localStorage w' → offline w2 →
    (∃ w3, getEventById id w2 = (Return None, w3)) ∧
    (∀ updates, ∃ w3,
       updateEvent id updates w2 = (Throw (Error "Event not found"), w3)) ∧
    (∃ w3, deleteEvent id w2 = (Return true, w3)
       ∧ localStorage w3 = localStorage w2).
Proof.
  intros H w2 Hl Hoff.
  apply deleteEvent_Return_inv in H as (_ & xs & kept & w4 & Hk & ->).
  destruct (filter_Return id xs kept Hk) as (Hlacks & _).
  assert (Hm : mirror w2 kept) by (eapply mirror_ext; [done | apply mirror_written]).
  split_and!.
  - rewrite (getEventById_down id w2 kept Hoff Hm).
    rewrite (find_none id kept Hlacks). by eexists.
  - intros updates. rewrite (updateEvent_down id updates w2 kept Hoff Hm).
    rewrite (findIndex_none id kept Hlacks). by eexists.
  - rewrite (deleteEvent_down id w2 kept Hoff Hm).
    rewrite (filter_keeps_all id kept Hlacks). eexists. split; [done|].
    simpl. apply insert_id. rewrite Hl. simpl. apply lookup_insert_eq.
Qed.

Lemma deleteEvent_then_witness :
  (∃ w3, getEventById (JStr "e-1") (deleteEvent (JStr "e-1") unplugged).2
         = (Return None, w3)) ∧
  (∀ updates, ∃ w3,
     updateEvent (JStr "e-1") updates (deleteEvent (JStr "e-1") unplugged).2
       = (Throw (Error "Event not found"), w3)) ∧
  (∃ w3, deleteEvent (JStr "e-1") (deleteEvent (JStr "e-1") unplugged).2
         = (Return true, w3)
     ∧ localStorage w3
       = localStorage (deleteEvent (JStr "e-1") unplugged).2).
Proof.
  apply (deleteEvent_then (JStr "e-1") unplugged
           (deleteEvent (JStr "e-1") unplugged).2 true);
    [by vm_compute | reflexivity | reflexivity].
Defined.

(** After an update made with the backend unavailable of the first
    record that carries the identifier, every entry before it being a
    record (not [null]), and as long as nobody writes to local storage
    and the backend stays unavailable, [getEventById] on the same
    identifier returns the merged record, provided the patch does not
    name the field [id].  A patch that gives [id] another value takes the
    record away from its identifier: when every entry behind it is a
    record (not [null]) that carries another identifier or none,
    [getEventById] on the old identifier returns [undefined]. *)
Theorem updateEvent_then_getEventById (id updates : jsval) (w : World)
    (pre : list jsval) (e : jsval) (post : list jsval) :
  offline w → mirror w (pre ++ e :: post) →
  Forall (lacks_id id) pre → has_id id e →
  ∃ merged w', updateEvent id updates w = (Return (Some merged), w') ∧
    ∀ w2, localStorage w2 = localStorage w' → offline w2 →
      (own_props updates !! "id" = None →
         ∃ w3, getEventById id w2 = (Return (Some merged), w3)) ∧
      (∀ other, own_props updates !! "id" = Some other →
         strict_eq (Some other) id = false → Forall (lacks_id id) post →
         ∃ w3, getEventById id w2 = (Return None, w3)).
Proof.
  intros Hoff Hm Hpre He.
  destruct (has_id_not_null id e He) as [fs ->].
  rewrite (updateEvent_down id updates w _ Hoff Hm).
  rewrite (findIndex_first id pre _ post Hpre He). cbv zeta.
  rewrite (list_lookup_middle pre post _ _ eq_refl). simpl own_props_opt.
  rewrite insert_app_r_alt by done. rewrite Nat.sub_diag. simpl insert.
  set (m := <["updatedAt" := JStr (now w)]> (own_props updates ∪ fs)).
  destruct (merged_fields (JStr (now w)) (own_props updates) fs) as [_ Hf].
  specialize (Hf "id" ltac:(done)). fold m in Hf.
  eexists (JObj m), _. split; [done|]. intros w2 Hl Hoff2.
  assert (Hm2 : mirror w2 (pre ++ JObj m :: post))
    by (eapply mirror_ext; [done | apply mirror_written]).
  rewrite (getEventById_down id w2 _ Hoff2 Hm2). split.
  - intros Hno. rewrite Hno in Hf.
    assert (Hhas : has_id id (JObj m)).
    { unfold has_id, id_is in *. simpl in *. by rewrite Hf. }
    rewrite (find_first id pre _ post Hpre Hhas). by eexists.
  - intros other Hother Hne Hpost. rewrite Hother in Hf.
    assert (Hlacks : lacks_id id (JObj m)).
    { unfold lacks_id, id_is. simpl. by rewrite Hf, Hne. }
    rewrite find_none; [by eexists|].
    apply Forall_app. split; [done|]. by constructor.
Qed.

Lemma updateEvent_then_getEventById_witness :
  (∃ merged w', updateEvent (JStr "e-2") to_pune unplugged
                = (Return (Some merged), w') ∧
     ∀ w2, localStorage w2 = localStorage w' → offline w2 →
       (own_props to_pune !! "id" = None →
          ∃ w3, getEventById (JStr "e-2") w2 = (Return (Some merged), w3)) ∧
       (∀ other, own_props to_pune !! "id" = Some other →
          strict_eq (Some other) (JStr "e-2") = false →
          Forall (lacks_id (JStr "e-2")) [] →
          ∃ w3, getEventById (JStr "e-2") w2 = (Return None, w3))) ∧
  (∃ merged w', updateEvent (JStr "e-1") rename unplugged
                = (Return (Some merged), w') ∧
     ∀ w2, localStorage w2 = localStorage w' → offline w2 →
       (own_props rename !! "id" = None →
          ∃ w3, getEventById (JStr "e-1") w2 = (Return (Some merged), w3)) ∧
       (∀ other, own_props rename !! "id" = Some other →
          strict_eq (Some other) (JStr "e-1") = false →
          Forall (lacks_id (JStr "e-1")) [expo] →
          ∃ w3, getEventById (JStr "e-1") w2 = (Return None, w3))).
Proof.
  split.
  - apply (updateEvent_then_getEventById (JStr "e-2") to_pune unplugged
             [gala] expo []);
      [reflexivity | reflexivity | by repeat constructor | reflexivity].
  - apply (updateEvent_then_getEventById (JStr "e-1") rename unplugged
             [] gala [expo]);
      [reflexivity | reflexivity | by repeat constructor | reflexivity].
Defined.

Lemma filter_drop id x xs ys :
  id_is_not id x = Return false → filter (id_is_not id) xs = Return ys →
  filter (id_is_not id) (x :: xs) = Return ys.
Proof. intros Hx Hxs. simpl. by rewrite Hx, Hxs. Qed.

(** Whenever [createEvent] has returned a record, deleting by the [id]
    of that record, with the backend unavailable and local storage not
    written to in between, returns [true] and leaves as the mirror the
    list [createEvent] had read, provided every entry of that list is a
    record (not [null]) whose [id] differs from the new identifier. *)
Theorem createEvent_then_deleteEvent (eventData : jsval) (w w' : World)
    (r : jsval) :
  createEvent eventData w = (Return r, w') →
  ∃ rid evs, get_prop r "id" = Return (Some rid) ∧ mirror w' (r :: evs) ∧
    ∀ w2, localStorage w2 = localStorage w' → offline w2 →
      Forall (lacks_id rid) evs →
      ∃ w3, deleteEvent rid w2 = (Return true, w3) ∧ mirror w3 evs.
Proof.
  intros H.
  apply createEvent_Return_inv in H
    as (userId & w1 & row & cols & user_id & verdicts & xs & w4
        & _ & _ & _ & _ & _ & -> & _ & ->).
  destruct (as_json_keys user_id cols) as [Hpid _].
  set (r := as_json user_id cols).
  exists (JStr (events.id cols)), xs. split; [done|].
  split; [apply mirror_written|]. intros w2 Hl Hoff Hxs.
  assert (Hm : mirror w2 (r :: xs))
    by (eapply mirror_ext; [done | apply mirror_written]).
  rewrite (deleteEvent_down (JStr (events.id cols)) w2 _ Hoff Hm).
  assert (Hr : id_is_not (JStr (events.id cols)) r = Return false).
  { unfold id_is_not, r. rewrite Hpid. simpl.
    by rewrite String.eqb_refl. }
  rewrite (filter_drop _ r xs xs Hr (filter_keeps_all _ xs Hxs)).
  eexists. split; [done | apply mirror_written].
Qed.

Lemma createEvent_then_deleteEvent_witness :
  ∃ rid evs, get_prop launched "id" = Return (Some rid)
    ∧ mirror (createEvent launch returning).2 (launched :: evs)
    ∧ evs = [gala; expo]
    ∧ offline (createEvent launch returning).2
    ∧ Forall (lacks_id rid) evs
    ∧ ∃ w3, deleteEvent rid (createEvent launch returning).2
            = (Return true, w3) ∧ mirror w3 evs.
Proof.
  destruct (createEvent_then_deleteEvent launch returning
              (createEvent launch returning).2 launched)
    as (rid & evs & Hid & Hm & H); [by vm_compute|].
  assert (Hevs : evs = [gala; expo]).
  { assert (Hm' : mirror (createEvent launch returning).2
                    (launched :: [gala; expo])) by (by vm_compute).
    unfold mirror in Hm, Hm'. rewrite Hm in Hm'. by simplify_eq. }
  assert (Hrid : rid = JStr "7c9e6679-7425-40de-944b-e07fc1f90ae7").
  { assert (Hid' : get_prop launched "id"
                   = Return (Some (JStr "7c9e6679-7425-40de-944b-e07fc1f90ae7")))
      by (by vm_compute).
    rewrite Hid in Hid'. by simplify_eq. }
  assert (Hoff : offline (createEvent launch returning).2) by reflexivity.
  assert (Hxs : Forall (lacks_id rid) evs).
  { subst rid evs. by repeat constructor. }
  exists rid, evs. split_and!; try done.
  by apply H.
Defined.

(** ** What create returns *)

(** Whenever [createEvent] returns a record, the identity resolved was a
    string the store reads as a uuid, the store accepted the insert, and
    the record is the row as persisted: the fourteen columns of the
    table, [user_id] being the identity in the form the store writes a
    uuid and every other column what the store keeps in it.  That row is
    the one added to the table, and one verdict of the store is used
    up. *)
Theorem createEvent_row (eventData : jsval) (w w' : World) (r : jsval) :
  createEvent eventData w = (Return r, w') →
  ∃ uid canonical w1 cols verdicts,
    getCurrentUserId w = (Return (Some (JStr uid)), w1)
    ∧ uuid_text uid = Some canonical
    ∧ supabase w = Accept cols :: verdicts
    ∧ r = as_json (JStr canonical) cols
    ∧ events_table w' = events_table w ++ [r]
    ∧ supabase w' = verdicts.
Proof.
  intros H.
  apply createEvent_Return_inv in H
    as (userId & w1 & row & cols & user_id & verdicts & xs & w4
        & Hid & Htr & _ & Hs & Hc & -> & Hall & ->).
  destruct (uuid_column_inr _ _ Htr Hc) as (uid & canonical & -> & Hu & ->).
  destruct (getCurrentUserId_total w)
    as (v' & w1' & Hid' & _ & _ & _ & _ & _ & Hs1 & Ht1 & _).
  rewrite Hid in Hid'. injection Hid' as <- <-.
  match type of Hall with getAllEvents ?w3 = _ =>
    destruct (getAllEvents_frame w3) as (_ & _ & Hs4 & Ht4 & _) end.
  rewrite Hall in Hs4, Ht4. simpl in Hs4, Ht4.
  exists uid, canonical, w1, cols, verdicts.
  split_and!; try done.
  - by rewrite <- Hs1.
  - simpl. by rewrite Ht4, Ht1.
Qed.

Lemma createEvent_row_witness :
  ∃ uid canonical w1 cols verdicts,
    getCurrentUserId capitals = (Return (Some (JStr uid)), w1)
    ∧ uuid_text uid = Some canonical
    ∧ supabase capitals = Accept cols :: verdicts
    ∧ launched = as_json (JStr canonical) cols
    ∧ events_table (createEvent launch capitals).2
      = events_table capitals ++ [launched]
    ∧ supabase (createEvent launch capitals).2 = verdicts.
Proof.
  apply (createEvent_row launch capitals (createEvent launch capitals).2
           launched).
  by vm_compute.
Defined.

(** [createEvent] gives up before it reaches the store in two cases,
    leaving the rows, the verdicts to come and local storage as they
    were.  An identity that is falsy — [null], [undefined], but also an
    [id] that is 0, [false] or the empty string — counts as no identity:
    'User not authenticated'.  And with an identity, the input [null]
    throws a [TypeError] when its first field is read. *)
Theorem createEvent_gives_up_early (eventData : jsval) (w w1 : World)
    (v : optional) :
  getCurrentUserId w = (Return v, w1) →
  (truthy_opt v = false →
     ∃ w', createEvent eventData w
           = (Throw (Error "User not authenticated"), w')
       ∧ events_table w' = events_table w ∧ supabase w' = supabase w
       ∧ localStorage w' = localStorage w) ∧
  (truthy_opt v = true → eventData = JNull →
     ∃ w', createEvent eventData w = (Throw TypeError, w')
       ∧ events_table w' = events_table w ∧ supabase w' = supabase w
       ∧ localStorage w' = localStorage w).
Proof.
  intros Hid.
  destruct (getCurrentUserId_total w)
    as (v' & w1' & Hid' & Hl & _ & _ & _ & _ & Hs & Ht & _).
  rewrite Hid in Hid'. injection Hid' as <- <-. split.
  - intros Hv. eexists. split.
    + unfold createEvent, try_catch. rewrite (bind_Return _ _ _ _ _ Hid).
      by rewrite Hv.
    + by simpl.
  - intros Hv ->. eexists. split.
    + unfold createEvent, try_catch. rewrite (bind_Return _ _ _ _ _ Hid).
      by rewrite Hv.
    + by simpl.
Qed.

Lemma createEvent_gives_up_early_witness :
  (∃ w', createEvent launch numbered
         = (Throw (Error "User not authenticated"), w')
     ∧ events_table w' = events_table numbered
     ∧ supabase w' = supabase numbered
     ∧ localStorage w' = localStorage numbered) ∧
  (∃ w', createEvent JNull signed_in = (Throw TypeError, w')
     ∧ events_table w' = events_table signed_in
     ∧ supabase w' = supabase signed_in
     ∧ localStorage w' = localStorage signed_in).
Proof.
  split.
  - apply (proj1 (createEvent_gives_up_early launch numbered numbered
                    (Some (JNum 0)) eq_refl)).
    reflexivity.
  - apply (proj2 (createEvent_gives_up_early JNull signed_in signed_in
                    (Some (JStr asha)) eq_refl));
      reflexivity.
Defined.

(** ** The mirror after a delete made with the backend available *)

Lemma getAllEvents_live w d d' q p :
  rest w = Respond d :: Respond d' :: q → get_prop d' "data" = Return p →
  getAllEvents w
  = (Return (or_else p (JArr [])), answered (GET Events) (probed true w)).
Proof.
  intros Hr Hp. unfold answered, probed, answered. run. rewrite Hr. simpl.
  by rewrite Hp.
Qed.

(** When the backend answers the probe, the remote delete, the second
    probe and the list request, and the list sent is an array of records,
    [deleteEvent] returns [true] and the mirror becomes that list without
    the records of the identifier, whatever was kept under the mirror key
    before: records that were in the mirror only are gone, and text that
    could not be parsed is replaced. *)
Theorem live_delete_rewrites_mirror (id : jsval) (w : World)
    (d1 d2 d3 d4 : jsval) (q : list reply) (xs : list jsval) :
  rest w = Respond d1 :: Respond d2 :: Respond d3 :: Respond d4 :: q →
  get_prop d4 "data" = Return (Some (JArr xs)) →
  Forall (λ e, e ≠ JNull) xs →
  ∃ kept w', deleteEvent id w = (Return true, w')
    ∧ filter (id_is_not id) xs = Return kept
    ∧ mirror w' kept
    ∧ sent w'
      = [GET Events; GET Events; DELETE (EventAt id); GET Events] ++ sent w.
Proof.
  intros Hr Hp Hrec.
  destruct (filter_total id xs Hrec) as [kept Hk]. exists kept.
  assert (Hr2 : rest (probed true w)
                = Respond d2 :: Respond d3 :: Respond d4 :: q)
    by (by rewrite rest_probed, Hr).
  set (w2 := answered (DELETE (EventAt id)) (probed true w)).
  assert (Hr3 : rest w2 = Respond d3 :: Respond d4 :: q)
    by (unfold w2, answered; simpl; by rewrite Hr).
  eexists. split_and!; [|done|apply mirror_written|].
  - unfold deleteEvent, try_catch.
    rewrite (bind_Return _ _ _ _ _ (checkBackendConnection_up w d1 _ Hr)).
    rewrite (bind_Return get_useBackend _ (probed true w) true _ eq_refl).
    cbv beta iota.
    rewrite (bind_Return _ _ (probed true w) () w2).
    2: { by rewrite (bind_Return _ _ _ _ _ (axios_answered _ _ _ _ Hr2)). }
    rewrite (bind_Return _ _ _ _ _ (getAllEvents_live w2 d3 d4 q _ Hr3 Hp)).
    simpl or_else.
    rewrite (bind_Return _ _ _ xs _ eq_refl).
    rewrite (bind_Return _ _ _ kept _ (f_equal (λ o, (o, _)) Hk)).
    reflexivity.
  - reflexivity.
Qed.

Lemma live_delete_rewrites_mirror_witness :
  ∃ kept w', deleteEvent (JStr "e-1") spoilt_live = (Return true, w')
    ∧ filter (id_is_not (JStr "e-1")) [expo] = Return kept
    ∧ mirror w' kept
    ∧ sent w'
      = [GET Events; GET Events; DELETE (EventAt (JStr "e-1")); GET Events]
        ++ sent spoilt_live.
Proof.
  apply (live_delete_rewrites_mirror (JStr "e-1") spoilt_live
           (JObj ∅) (JObj ∅) (JObj ∅) (JObj {[ "data" := JArr [expo] ]})
           [] [expo]);
    [reflexivity | reflexivity | by repeat constructor].
Defined.
